(** * The TCAV module of the LIT front end (lit_nlp/client/modules/tcav_module.ts)

    A shallow embedding of the view-controller [TCAVModule]: its observable
    fields, the derived option lists, the enablement test of the run button,
    the asynchronous run workflow [runTCAV] and the static visibility
    predicate, followed by the properties established about them. *)

From Stdlib Require Import Floats.PrimFloat.
From stdpp Require Import gmap strings list.

#[local] Set Warnings "-inexact-float".

Local Open Scope string_scope.
Local Open Scope list_scope.

(** ** Constants of the module *)

Definition MIN_EXAMPLES_LENGTH : nat := 2.
Definition ALL : string := "all".
Definition TCAV_NAME : string := "tcav".

(** ** Values of the host language *)

(** A JavaScript [number] is an IEEE 754 binary64 value. *)
Abbreviation number := float.

(** The only run-time fault the module can raise by itself: a property read
    on [undefined]. *)
Inductive JsError : Type := TypeError.

Inductive Completion (A : Type) : Type :=
| Normal (a : A)
| Throw (e : JsError).
Arguments Normal {A} a.
Arguments Throw {A} e.

(** ** Model capability descriptors *)

(** Modelled from the spec: the types [LitType], [Spec] and [ModelInfoMap] of
    lib/types are not among the sources.  A descriptor declares named fields,
    each with a kind, plus a vocabulary for prediction fields.  The fields
    of a [Spec] are listed in the enumeration order of the object's keys;
    [vocab] is [None] where the property is absent ([undefined]). *)
Record LitType : Type := { kind : string; vocab : option (list string) }.

Abbreviation Spec := (list (string * LitType)).

Record ModelSpec : Type := { output : Spec }.

Abbreviation ModelInfoMap := (list (string * ModelSpec)).

(** [spec[key]]: the property read on an object, [None] for [undefined]. *)
Fixpoint getField (spec : Spec) (key : string) : option LitType :=
  match spec with
  | [] => None
  | (k, ty) :: rest => if String.eqb k key then Some ty else getField rest key
  end.

(** [keys[0]] used as a property key: reading index 0 of an empty array gives
    [undefined], which as a property key is the string "undefined". *)
Definition firstAsKey (keys : list string) : string :=
  match keys with
  | k :: _ => k
  | [] => "undefined"
  end.

(** Modelled from the spec: [findSpecKeys] of lib/utils is not among the
    sources.  It gives the names of the fields of a descriptor whose kind is
    the requested one, in the order of the descriptor. *)
Fixpoint findSpecKeys (spec : Spec) (typeToFind : string) : list string :=
  match spec with
  | [] => []
  | (k, ty) :: rest =>
      if String.eqb (kind ty) typeToFind
      then k :: findSpecKeys rest typeToFind
      else findSpecKeys rest typeToFind
  end.

(** Modelled from the spec: [doesOutputSpecContain] of lib/utils is not among
    the sources.  It tells whether a capability descriptor of the map
    declares at least one output field of the requested kind. *)
Definition doesOutputSpecContain (models : ModelInfoMap) (typeToFind : string)
  : bool :=
  existsb
    (fun m => negb (Nat.eqb (length (findSpecKeys (output m.2) typeToFind)) 0))
    models.

(** ** External services *)

(** The subset service as the module consumes it: the ordered names and the
    resolution of a name to member identifiers ([None] for [null] or
    [undefined]).  Nothing relates the two: a listed name may fail to
    resolve. *)
Record SliceService : Type := {
  sliceNames : list string;
  getSliceByName : string -> option (list string)
}.

(** One entry of an interpretation result: [{p_val, result: {score}}]. *)
Record TCAVScore : Type := { score : number }.
Record TCAVResult : Type := { p_val : number; result : TCAVScore }.

(** The configuration sent with each request. *)
Record CallConfig : Type := {
  concept_set_ids : list string;
  class_to_explain : string;
  grad_layer : string
}.

(** ** The controller *)

Record TCAVModule : Type := {
  scores : gmap string number;
  selectedSlice : string;
  selectedLayer : string;
  selectedClass : string;
  isLoading : bool
}.

(** Field initialisers of the class. *)
Definition initial : TCAVModule :=
  {| scores := ∅; selectedSlice := ALL; selectedLayer := "";
     selectedClass := ""; isLoading := false |}.

Definition set_scores (m : gmap string number) (this : TCAVModule) :=
  {| scores := m; selectedSlice := selectedSlice this;
     selectedLayer := selectedLayer this; selectedClass := selectedClass this;
     isLoading := isLoading this |}.

Definition set_selectedSlice (v : string) (this : TCAVModule) :=
  {| scores := scores this; selectedSlice := v;
     selectedLayer := selectedLayer this; selectedClass := selectedClass this;
     isLoading := isLoading this |}.

Definition set_selectedLayer (v : string) (this : TCAVModule) :=
  {| scores := scores this; selectedSlice := selectedSlice this;
     selectedLayer := v; selectedClass := selectedClass this;
     isLoading := isLoading this |}.

Definition set_selectedClass (v : string) (this : TCAVModule) :=
  {| scores := scores this; selectedSlice := selectedSlice this;
     selectedLayer := selectedLayer this; selectedClass := v;
     isLoading := isLoading this |}.

Definition set_isLoading (b : bool) (this : TCAVModule) :=
  {| scores := scores this; selectedSlice := selectedSlice this;
     selectedLayer := selectedLayer this; selectedClass := selectedClass this;
     isLoading := b |}.

(** *** Derived option lists *)

Definition gradKeys (modelSpec : ModelSpec) : list string :=
  findSpecKeys (output modelSpec) "Gradients".

(** [this.modelSpec.output[predKeys[0]].vocab!]: the non-null assertion is a
    compile-time annotation only; the read of [vocab] faults when the field
    looked up is [undefined]. *)
Definition predClasses (modelSpec : ModelSpec)
  : Completion (option (list string)) :=
  let predKeys := findSpecKeys (output modelSpec) "MulticlassPreds" in
  match getField (output modelSpec) (firstAsKey predKeys) with
  | Some field => Normal (vocab field)
  | None => Throw TypeError
  end.

(** *** First render *)

Definition firstUpdated (modelSpec : ModelSpec) (this : TCAVModule)
  : TCAVModule * Completion unit :=
  let this1 :=
    if String.eqb (selectedLayer this) "" then
      match gradKeys modelSpec with
      | g :: _ => set_selectedLayer g this
      | [] => this
      end
    else this in
  if String.eqb (selectedClass this1) "" then
    match predClasses modelSpec with
    | Throw e => (this1, Throw e)
    | Normal None => (this1, Throw TypeError)
    | Normal (Some (c :: _)) => (set_selectedClass c this1, Normal tt)
    | Normal (Some []) => (this1, Normal tt)
    end
  else (this1, Normal tt).

(** *** Change handlers of the three selectors *)

Definition handleSliceChange (value : string) (this : TCAVModule) :=
  set_selectedSlice value this.
Definition handleLayerChange (value : string) (this : TCAVModule) :=
  set_selectedLayer value this.
Definition handleClassChange (value : string) (this : TCAVModule) :=
  set_selectedClass value this.

(** *** Rendering *)

(** The candidate names: [this.selectedSlice === ALL ?
    this.sliceService.sliceNames : [this.selectedSlice]].  The source writes
    this expression once in [shouldDisable] and once in [runTCAV]. *)
Definition candidateSlices (sliceService : SliceService) (this : TCAVModule)
  : list string :=
  if String.eqb (selectedSlice this) ALL then sliceNames sliceService
  else [selectedSlice this].

(** The [for] loop of [shouldDisable] over the candidate names. *)
Fixpoint shouldDisable_loop (sliceService : SliceService)
  (slices : list string) : bool :=
  match slices with
  | [] => true
  | slice :: rest =>
      match getSliceByName sliceService slice with
      | None => true
      | Some examples =>
          if Nat.leb MIN_EXAMPLES_LENGTH (length examples) then false
          else shouldDisable_loop sliceService rest
      end
  end.

Definition shouldDisable (sliceService : SliceService) (this : TCAVModule)
  : bool :=
  let slices := candidateSlices sliceService this in
  shouldDisable_loop sliceService slices.

(** *** The selectors *)

(** What [renderSelector] puts in the page, as far as values go: the label of
    the field and the [option] elements of the dropdown, each with its
    [value] and its [selected] attribute.  The first option, for [ALL], is
    written without a [?selected] binding. *)
Record OptionElement : Type := {
  option_value : string;
  option_selected : bool
}.

Record SelectElement : Type := {
  select_fieldName : string;
  select_options : list OptionElement;
  (* the [@change] listener, applied to [e.target.value] *)
  select_handleChange : string -> TCAVModule -> TCAVModule
}.

Definition renderSelector (fieldName : string)
  (handleChange : string -> TCAVModule -> TCAVModule) (selected : string)
  (items : list string) : SelectElement :=
  {| select_fieldName := fieldName;
     select_options :=
       {| option_value := ALL; option_selected := false |}
       :: map (fun val =>
                 {| option_value := val;
                    option_selected := String.eqb val selected |}) items;
     select_handleChange := handleChange |}.

(** The three dropdowns.  The third reads [this.predClasses], which may
    fault, and maps over it, which faults when it is [undefined]. *)
Definition renderSelectors (sliceService : SliceService)
  (modelSpec : ModelSpec) (this : TCAVModule)
  : Completion (SelectElement * SelectElement * SelectElement) :=
  let slice :=
    renderSelector "Slice" handleSliceChange (selectedSlice this)
      (sliceNames sliceService) in
  let layer :=
    renderSelector "Layer/Bottleneck" handleLayerChange (selectedLayer this)
      (gradKeys modelSpec) in
  match predClasses modelSpec with
  | Throw e => Throw e
  | Normal None => Throw TypeError
  | Normal (Some classes) =>
      Normal (slice, layer,
              renderSelector "Class to Explain" handleClassChange
                (selectedClass this) classes)
  end.

(** What [render] puts in the page: the three dropdowns, the [disabled]
    attribute of the button and the properties of the bar chart.  The
    template evaluates [this.renderSelectors()] first, so [render] faults
    where that call does. *)
Record View : Type := {
  view_selectors : SelectElement * SelectElement * SelectElement;
  submit_disabled : bool;
  chart_scores : gmap string number;
  chart_isLoading : bool
}.

Definition render (sliceService : SliceService) (modelSpec : ModelSpec)
  (this : TCAVModule) : Completion View :=
  match renderSelectors sliceService modelSpec this with
  | Throw e => Throw e
  | Normal selectors =>
      Normal {| view_selectors := selectors;
                submit_disabled := shouldDisable sliceService this;
                chart_scores := scores this;
                chart_isLoading := isLoading this |}
  end.

(** *** The static visibility predicate *)

Definition shouldDisplayModule (modelSpecs : ModelInfoMap) (datasetSpec : Spec)
  : bool :=
  let supportsEmbs := doesOutputSpecContain modelSpecs "Embeddings" in
  let supportsGrads := doesOutputSpecContain modelSpecs "Gradients" in
  let multiclassPreds := doesOutputSpecContain modelSpecs "MulticlassPreds" in
  if supportsGrads && supportsEmbs && multiclassPreds then true else false.

(** ** The run workflow *)

(** [runTCAV] is an [async] function: it runs up to its [await], is suspended
    there, and is resumed with what [loadLatest] delivers.  A suspended run
    holds its locals. *)
Record RunTask : Type := {
  task_slicesToRun : list string;    (* the array the loop walks *)
  task_scores : gmap string number;  (* the local [scores] *)
  task_slice : string;               (* the loop variable at the [await] *)
  task_rest : list string;           (* the names not yet visited *)
  task_config : CallConfig           (* the configuration of the request *)
}.

Inductive RunStatus : Type :=
| Suspended (t : RunTask)   (* waiting at the [await] *)
| Completed                 (* fell out of the loop *)
| Aborted                   (* the early [return] on a stale result *)
| Rejected (e : JsError).   (* a fault: the promise of the run rejects *)

(** The body of the [for] loop from its head, up to the next [await] or to
    the two assignments after the loop. *)
Fixpoint runTCAV_loop (sliceService : SliceService) (this : TCAVModule)
  (slicesToRun : list string) (scores : gmap string number)
  (slices : list string) : TCAVModule * RunStatus :=
  match slices with
  | [] => (set_scores scores (set_isLoading false this), Completed)
  | slice :: rest =>
      match getSliceByName sliceService slice with
      | None => runTCAV_loop sliceService this slicesToRun scores rest
      | Some selectedIds =>
          if Nat.ltb (length selectedIds) MIN_EXAMPLES_LENGTH
          then runTCAV_loop sliceService this slicesToRun scores rest
          else
            let config :=
              {| concept_set_ids := selectedIds;
                 class_to_explain := selectedClass this;
                 grad_layer := selectedLayer this |} in
            (this,
             Suspended {| task_slicesToRun := slicesToRun;
                          task_scores := scores;
                          task_slice := slice;
                          task_rest := rest;
                          task_config := config |})
      end
  end.

(** The call: the synchronous part up to the first [await]. *)
Definition runTCAV (sliceService : SliceService) (this : TCAVModule)
  : TCAVModule * RunStatus :=
  let this := set_isLoading true this in
  let scores : gmap string number := ∅ in
  let slicesToRun := candidateSlices sliceService this in
  runTCAV_loop sliceService this slicesToRun scores slicesToRun.

(** The significance test and the [scores.set] of one loop iteration. *)
Definition recordResult (t : RunTask) (r0 : TCAVResult) : gmap string number :=
  if PrimFloat.ltb (p_val r0) 0.5%float
  then <[task_slice t := score (result r0)]> (task_scores t)
  else task_scores t.

(** The continuation after the [await]: [result] is [None] for the [null] of
    a superseded request, else the array of entries.  The service and the
    fields of [this] are read as they are at that moment. *)
Definition runTCAV_resume (sliceService : SliceService) (this : TCAVModule)
  (t : RunTask) (result : option (list TCAVResult))
  : TCAVModule * RunStatus :=
  match result with
  | None => (set_isLoading false this, Aborted)
  | Some [] => (this, Rejected TypeError)
  | Some (r0 :: _) =>
      runTCAV_loop sliceService this (task_slicesToRun t)
        (recordResult t r0) (task_rest t)
  end.

(** *** A run that nothing interleaves with *)

Fixpoint drive (sliceService : SliceService) (this : TCAVModule)
  (status : RunStatus) (responses : list (option (list TCAVResult)))
  : TCAVModule * RunStatus :=
  match status, responses with
  | Suspended t, r :: rest =>
      let '(this', status') := runTCAV_resume sliceService this t r in
      drive sliceService this' status' rest
  | _, _ => (this, status)
  end.

Definition run (sliceService : SliceService) (this : TCAVModule)
  (responses : list (option (list TCAVResult))) : TCAVModule * RunStatus :=
  let '(this', status) := runTCAV sliceService this in
  drive sliceService this' status responses.

(** ** The lifetime of an element *)

(** What a run has been answered so far: for each result it has processed,
    the name it was asked for, the configuration sent and the first entry. *)
Abbreviation RunLog := (list (string * CallConfig * TCAVResult)).

(** The element with its suspended runs.  [hasUpdated] is the flag of the
    update cycle of the base class; each suspended run is paired with its log
    and [produced] keeps the candidate list and the log of the run that last
    assigned [scores]: both are history kept for stating properties and are
    never read by the code. *)
Record System : Type := {
  element : TCAVModule;
  hasUpdated : bool;
  pending : list (RunTask * RunLog);
  produced : option (list string * RunLog)
}.

Definition boot : System :=
  {| element := initial; hasUpdated := false; pending := []; produced := None |}.

(** What can happen to an element.  The service and the descriptor are given
    as they are when the event happens; [Settle i] delivers the outcome of
    the request of the [i]-th suspended run. *)
Inductive Event : Type :=
| Update (sliceService : SliceService) (modelSpec : ModelSpec)
| SliceChange (value : string)
| LayerChange (value : string)
| ClassChange (value : string)
| Click (sliceService : SliceService)
| Settle (i : nat) (sliceService : SliceService)
    (result : option (list TCAVResult)).

Definition with_element (this : TCAVModule) (sys : System) : System :=
  {| element := this; hasUpdated := hasUpdated sys;
     pending := pending sys; produced := produced sys |}.

(** Modelled from the spec: the update cycle of the base class is not among
    the sources.  Every update renders; [firstUpdated] is invoked after the
    first render, whether or not that render faulted, and not on later
    ones. *)
Definition performUpdate (sliceService : SliceService) (modelSpec : ModelSpec)
  (sys : System) : System * Completion View :=
  let view := render sliceService modelSpec (element sys) in
  if hasUpdated sys then (sys, view)
  else
    ({| element := (firstUpdated modelSpec (element sys)).1;
        hasUpdated := true;
        pending := pending sys; produced := produced sys |}, view).

Definition logged (t : RunTask) (log : RunLog)
  (result : option (list TCAVResult)) : RunLog :=
  match result with
  | Some (r0 :: _) => log ++ [(task_slice t, task_config t, r0)]
  | _ => log
  end.

Definition click (sliceService : SliceService) (sys : System) : System :=
  let '(this', status) := runTCAV sliceService (element sys) in
  match status with
  | Suspended t =>
      {| element := this'; hasUpdated := hasUpdated sys;
         pending := pending sys ++ [(t, [])]; produced := produced sys |}
  | Completed =>
      {| element := this'; hasUpdated := hasUpdated sys;
         pending := pending sys;
         produced :=
           Some (candidateSlices sliceService (set_isLoading true (element sys)),
                 []) |}
  | _ => with_element this' sys
  end.

Definition settle (i : nat) (sliceService : SliceService)
  (result : option (list TCAVResult)) (sys : System) : System :=
  match pending sys !! i with
  | None => sys
  | Some (t, log) =>
      let '(this', status) :=
        runTCAV_resume sliceService (element sys) t result in
      let log' := logged t log result in
      match status with
      | Suspended t' =>
          {| element := this'; hasUpdated := hasUpdated sys;
             pending := <[i := (t', log')]> (pending sys);
             produced := produced sys |}
      | Completed =>
          {| element := this'; hasUpdated := hasUpdated sys;
             pending := delete i (pending sys);
             produced := Some (task_slicesToRun t, log') |}
      | _ =>
          {| element := this'; hasUpdated := hasUpdated sys;
             pending := delete i (pending sys);
             produced := produced sys |}
      end
  end.

Definition step (sys : System) (ev : Event) : System :=
  match ev with
  | Update sliceService modelSpec => (performUpdate sliceService modelSpec sys).1
  | SliceChange v => with_element (handleSliceChange v (element sys)) sys
  | LayerChange v => with_element (handleLayerChange v (element sys)) sys
  | ClassChange v => with_element (handleClassChange v (element sys)) sys
  | Click sliceService => click sliceService sys
  | Settle i sliceService result => settle i sliceService result sys
  end.

Definition lifetime (events : list Event) : System := foldl step boot events.

(** ** Vocabulary of the statements *)

Definition same_selection (a b : TCAVModule) : Prop :=
  selectedSlice a = selectedSlice b /\
  selectedLayer a = selectedLayer b /\
  selectedClass a = selectedClass b.

(** The state [this'] differs from [this] in the loading flag and the score
    map at most. *)
Definition frame (this this' : TCAVModule) : Prop :=
  this' = set_scores (scores this') (set_isLoading (isLoading this') this).

(** Some model of the map declares an output field of the given kind. *)
Definition declares (modelSpecs : ModelInfoMap) (kindName : string) : Prop :=
  exists name modelSpec field ty,
    (name, modelSpec) ∈ modelSpecs /\
    (field, ty) ∈ output modelSpec /\
    kind ty = kindName.

(** A name resolves to at least [MIN_EXAMPLES_LENGTH] members. *)
Definition usable (sliceService : SliceService) (slice : string) : Prop :=
  exists ids,
    getSliceByName sliceService slice = Some ids /\
    MIN_EXAMPLES_LENGTH <= length ids.

(** A name resolves, to fewer than [MIN_EXAMPLES_LENGTH] members. *)
Definition undersized (sliceService : SliceService) (slice : string) : Prop :=
  exists ids,
    getSliceByName sliceService slice = Some ids /\
    length ids < MIN_EXAMPLES_LENGTH.

Definition usableb (sliceService : SliceService) (slice : string) : bool :=
  match getSliceByName sliceService slice with
  | Some ids => Nat.leb MIN_EXAMPLES_LENGTH (length ids)
  | None => false
  end.

(** The names a run sends a request for, in order, when the service does not
    change during the run. *)
Definition requests (sliceService : SliceService) (slices : list string)
  : list string :=
  List.filter (usableb sliceService) slices.

Definition significant (r0 : TCAVResult) : Prop :=
  PrimFloat.ltb (p_val r0) 0.5%float = true.

(** In a run over [slices] answered by [responses], the name [k] got a result
    whose first entry passes the significance test. *)
Definition qualifies (sliceService : SliceService) (slices : list string)
  (responses : list (option (list TCAVResult))) (k : string) : Prop :=
  exists i r0 tl,
    requests sliceService slices !! i = Some k /\
    responses !! i = Some (Some (r0 :: tl)) /\
    significant r0.

(** The log holds a significant result for [k] with score [v], asked with at
    least [MIN_EXAMPLES_LENGTH] members. *)
Definition passed (k : string) (v : number) (log : RunLog) : Prop :=
  exists cfg r0,
    (k, cfg, r0) ∈ log /\
    MIN_EXAMPLES_LENGTH <= length (concept_set_ids cfg) /\
    significant r0 /\
    score (result r0) = v.

Definition justified (cands : list string) (log : RunLog)
  (m : gmap string number) : Prop :=
  forall k v, m !! k = Some v -> k ∈ cands /\ passed k v log.

Definition task_ok (tl : RunTask * RunLog) : Prop :=
  justified (task_slicesToRun tl.1) tl.2 (task_scores tl.1) /\
  task_slice tl.1 ∈ task_slicesToRun tl.1 /\
  task_rest tl.1 ⊆ task_slicesToRun tl.1 /\
  MIN_EXAMPLES_LENGTH <= length (concept_set_ids (task_config tl.1)).

Definition scores_justified (sys : System) : Prop :=
  forall k v,
    scores (element sys) !! k = Some v ->
    exists cands log,
      produced sys = Some (cands, log) /\ k ∈ cands /\ passed k v log.

(** The invariant of the lifetime: the score map is justified by the run
    that produced it (and is empty while no run has), and so is the working
    map of every suspended run. *)
Definition lifetime_invariant (sys : System) : Prop :=
  match produced sys with
  | None => scores (element sys) = ∅
  | Some (cands, log) => justified cands log (scores (element sys))
  end /\ Forall task_ok (pending sys).

(** The first field of a descriptor whose kind is the given one. *)
Definition firstOfKind (spec : Spec) (kindName : string)
  : option (string * LitType) :=
  List.find (fun f => String.eqb (kind f.2) kindName) spec.

(** Sample data: a service that lists a name it cannot resolve before a
    name with two members, and descriptors with and without a prediction
    field. *)
Definition sampleService : SliceService :=
  {| sliceNames := ["gone"; "pair"];
     getSliceByName := fun name =>
       if String.eqb name "pair" then Some ["id1"; "id2"] else None |}.

Definition sampleModel : ModelSpec :=
  {| output :=
       [("emb", {| kind := "Embeddings"; vocab := None |});
        ("L1", {| kind := "Gradients"; vocab := None |});
        ("L2", {| kind := "Gradients"; vocab := None |});
        ("probas", {| kind := "MulticlassPreds";
                      vocab := Some ["cat"; "dog"] |})] |}.

Definition gradientOnlyModel : ModelSpec :=
  {| output := [("L1", {| kind := "Gradients"; vocab := None |})] |}.

Definition lowSignificance : TCAVResult :=
  {| p_val := 0.6%float; result := {| score := 0.9%float |} |}.

Definition highSignificance : TCAVResult :=
  {| p_val := 0.1%float; result := {| score := 0.7%float |} |}.

(** A run suspended on the request for "pair", nothing recorded yet. *)
Definition sampleTask : RunTask :=
  {| task_slicesToRun := ["gone"; "pair"];
     task_scores := ∅;
     task_slice := "pair";
     task_rest := [];
     task_config :=
       {| concept_set_ids := ["id1"; "id2"];
          class_to_explain := "cat"; grad_layer := "L1" |} |}.

(** A controller that already shows a score from an earlier run. *)
Definition shownBefore : TCAVModule :=
  set_scores {[ "old" := 1%float ]} initial.

(** Two subsets of two members each, and the states after a first run in
    which only "X" passes and a second one in which only "Y" passes. *)
Definition serviceXY : SliceService :=
  {| sliceNames := ["X"; "Y"];
     getSliceByName := fun name =>
       if String.eqb name "X" then Some ["x1"; "x2"]
       else if String.eqb name "Y" then Some ["y1"; "y2"]
       else None |}.

Definition afterX : TCAVModule :=
  set_scores {[ "X" := 0.7%float ]} initial.

Definition afterY : TCAVModule :=
  set_scores {[ "Y" := 0.7%float ]} initial.

(** ** Reading the selectors *)

(** The values of the options that carry the [selected] attribute. *)
Definition markedValues (sel : SelectElement) : list string :=
  map option_value (List.filter option_selected (select_options sel)).

(** ** Further vocabulary *)

(** A response that lets the run go on: neither stale nor empty. *)
Definition answered (r : option (list TCAVResult)) : bool :=
  match r with
  | Some (_ :: _) => true
  | _ => false
  end.

(** As [qualifies], with the score of the first entry. *)
Definition qualifies_with (sliceService : SliceService) (slices : list string)
  (responses : list (option (list TCAVResult))) (k : string) (v : number)
  : Prop :=
  exists i r0 tl,
    requests sliceService slices !! i = Some k /\
    responses !! i = Some (Some (r0 :: tl)) /\
    significant r0 /\
    score (result r0) = v.

(** Two outcomes with the same status and the same selection, and the same
    controller when the run has completed. *)
Definition agree (p q : TCAVModule * RunStatus) : Prop :=
  p.2 = q.2 /\ same_selection p.1 q.1 /\ (p.2 = Completed -> p.1 = q.1).

(** A descriptor whose prediction field has no vocabulary. *)
Definition noVocabModel : ModelSpec :=
  {| output :=
       [("L1", {| kind := "Gradients"; vocab := None |});
        ("probas", {| kind := "MulticlassPreds"; vocab := None |})] |}.

(** * Properties *)

(** ** Descriptors *)

Section Descriptors.
Implicit Types (spec : Spec) (models : ModelInfoMap).

Lemma elem_of_findSpecKeys spec typeToFind field :
  field ∈ findSpecKeys spec typeToFind <->
  exists ty, (field, ty) ∈ spec /\ kind ty = typeToFind.
Proof.
  induction spec as [|[k ty] rest IH]; simpl.
  - split; [intros H; inversion H | intros (? & H & _); inversion H].
  - destruct (String.eqb_spec (kind ty) typeToFind) as [Hk|Hk].
    + rewrite elem_of_cons, IH. split.
      * intros [->|(ty' & Hin & Hty)]; [exists ty | exists ty'];
          rewrite elem_of_cons; auto.
      * intros (ty' & Hin & Hty). apply elem_of_cons in Hin as [Heq|Hin].
        -- left. congruence.
        -- right. eauto.
    + rewrite IH. split.
      * intros (ty' & Hin & Hty). exists ty'. rewrite elem_of_cons. auto.
      * intros (ty' & Hin & Hty). apply elem_of_cons in Hin as [Heq|Hin].
        -- congruence.
        -- eauto.
Qed.

Lemma findSpecKeys_nonempty spec typeToFind :
  negb (Nat.eqb (length (findSpecKeys spec typeToFind)) 0) = true <->
  exists field ty, (field, ty) ∈ spec /\ kind ty = typeToFind.
Proof.
  split.
  - destruct (findSpecKeys spec typeToFind) as [|f l] eqn:E; [discriminate|].
    intros _. assert (Hf : f ∈ findSpecKeys spec typeToFind)
      by (rewrite E; apply elem_of_cons; auto).
    apply elem_of_findSpecKeys in Hf as (ty & ? & ?). eauto.
  - intros (f & ty & Hin & Hk).
    assert (Hf : f ∈ findSpecKeys spec typeToFind)
      by (apply elem_of_findSpecKeys; eauto).
    destruct (findSpecKeys spec typeToFind); [inversion Hf | reflexivity].
Qed.

Lemma doesOutputSpecContain_declares models typeToFind :
  doesOutputSpecContain models typeToFind = true <->
  declares models typeToFind.
Proof.
  unfold doesOutputSpecContain, declares. rewrite existsb_exists. split.
  - intros ([name m] & Hin & Hne). apply findSpecKeys_nonempty in Hne
      as (f & ty & ? & ?).
    exists name, m, f, ty. rewrite list_elem_of_In. auto.
  - intros (name & m & f & ty & Hin & Hf & Hk). exists (name, m). split.
    + by apply list_elem_of_In.
    + apply findSpecKeys_nonempty. eauto.
Qed.

(** The first field of the requested kind heads [findSpecKeys]. *)
Lemma findSpecKeys_first spec typeToFind pre field ty post :
  spec = pre ++ (field, ty) :: post ->
  Forall (fun f => kind f.2 <> typeToFind) pre ->
  kind ty = typeToFind ->
  findSpecKeys spec typeToFind = field :: findSpecKeys post typeToFind.
Proof.
  intros -> Hpre Hk. induction Hpre as [|[k t] pre Hx _ IH]; simpl.
  - rewrite Hk, String.eqb_refl. reflexivity.
  - simpl in Hx. destruct (String.eqb_spec (kind t) typeToFind);
      [contradiction | exact IH].
Qed.

Lemma findSpecKeys_none spec typeToFind :
  Forall (fun f => kind f.2 <> typeToFind) spec ->
  findSpecKeys spec typeToFind = [].
Proof.
  induction 1 as [|[k t] rest Hx _ IH]; simpl; [reflexivity|].
  simpl in Hx. destruct (String.eqb_spec (kind t) typeToFind);
    [contradiction | exact IH].
Qed.

Lemma getField_None spec key :
  key ∉ spec.*1 -> getField spec key = None.
Proof.
  induction spec as [|[k t] rest IH]; simpl; [reflexivity|].
  rewrite not_elem_of_cons. intros [Hne Hnin].
  destruct (String.eqb_spec k key); [congruence | auto].
Qed.

Lemma getField_unique spec pre field ty post :
  spec = pre ++ (field, ty) :: post ->
  NoDup spec.*1 ->
  getField spec field = Some ty.
Proof.
  intros -> Hnd. induction pre as [|[k t] pre IH]; simpl in *.
  - by rewrite String.eqb_refl.
  - apply NoDup_cons in Hnd as [Hk Hnd].
    destruct (String.eqb_spec k field) as [->|Hne]; [|auto].
    exfalso. apply Hk. rewrite fmap_app. apply elem_of_app. right.
    simpl. apply elem_of_cons. auto.
Qed.
End Descriptors.

(** C8: the visibility predicate holds exactly when the capability map
    declares an "Embeddings" output, a "Gradients" output and a
    "MulticlassPreds" output; as soon as one of the three kinds is missing
    the predicate is false, whatever the other two are. *)
Theorem shouldDisplayModule_iff (modelSpecs : ModelInfoMap) (datasetSpec : Spec) :
  (shouldDisplayModule modelSpecs datasetSpec = true <->
     declares modelSpecs "Embeddings" /\
     declares modelSpecs "Gradients" /\
     declares modelSpecs "MulticlassPreds") /\
  (forall kindName,
     kindName ∈ ["Embeddings"; "Gradients"; "MulticlassPreds"] ->
     ~ declares modelSpecs kindName ->
     shouldDisplayModule modelSpecs datasetSpec = false).
Proof.
  assert (Hiff : shouldDisplayModule modelSpecs datasetSpec = true <->
     declares modelSpecs "Embeddings" /\
     declares modelSpecs "Gradients" /\
     declares modelSpecs "MulticlassPreds").
  { unfold shouldDisplayModule.
    rewrite <- !doesOutputSpecContain_declares.
    destruct (doesOutputSpecContain modelSpecs "Embeddings"),
      (doesOutputSpecContain modelSpecs "Gradients"),
      (doesOutputSpecContain modelSpecs "MulticlassPreds"); simpl;
      intuition congruence. }
  split; [exact Hiff|].
  intros kindName Hin Hno.
  destruct (shouldDisplayModule modelSpecs datasetSpec) eqn:E; [|reflexivity].
  exfalso. apply Hno. destruct Hiff as [Hto _].
  destruct (Hto eq_refl) as (He & Hg & Hp).
  repeat (apply elem_of_cons in Hin as [->|Hin]; [assumption|]).
  inversion Hin.
Qed.

(** C10: the dataset specification plays no part in the visibility
    predicate: two calls on the same capability map agree whatever the two
    dataset specifications are. *)
Theorem shouldDisplayModule_ignores_dataset
  (modelSpecs : ModelInfoMap) (datasetSpec1 datasetSpec2 : Spec) :
  shouldDisplayModule modelSpecs datasetSpec1 =
  shouldDisplayModule modelSpecs datasetSpec2.
Proof. reflexivity. Qed.

Lemma shouldDisplayModule_witness :
  "Embeddings" ∈ ["Embeddings"; "Gradients"; "MulticlassPreds"] /\
  ~ declares [("m", gradientOnlyModel)] "Embeddings" /\
  shouldDisplayModule [("m", gradientOnlyModel)] [] = false.
Proof.
  assert (Hin : "Embeddings" ∈ ["Embeddings"; "Gradients"; "MulticlassPreds"])
    by (apply elem_of_cons; auto).
  assert (Hno : ~ declares [("m", gradientOnlyModel)] "Embeddings").
  { intros H. apply doesOutputSpecContain_declares in H.
    vm_compute in H. discriminate. }
  split; [exact Hin|]. split; [exact Hno|].
  exact (proj2 (shouldDisplayModule_iff [("m", gradientOnlyModel)] [])
           "Embeddings" Hin Hno).
Defined.

(** ** Predictable classes *)

Lemma firstOfKind_None spec kindName :
  firstOfKind spec kindName = None ->
  Forall (fun f => kind f.2 <> kindName) spec.
Proof.
  unfold firstOfKind. induction spec as [|[k t] rest IH]; simpl.
  - constructor.
  - destruct (String.eqb_spec (kind t) kindName); [discriminate|].
    intros H. constructor; auto.
Qed.

Lemma firstOfKind_Some spec kindName field ty :
  firstOfKind spec kindName = Some (field, ty) ->
  exists pre post,
    spec = pre ++ (field, ty) :: post /\
    Forall (fun f => kind f.2 <> kindName) pre /\
    kind ty = kindName.
Proof.
  unfold firstOfKind. induction spec as [|[k t] rest IH]; simpl; [discriminate|].
  destruct (String.eqb_spec (kind t) kindName) as [Hk|Hk].
  - intros [= -> ->]. exists [], rest. auto.
  - intros H. destruct (IH H) as (pre & post & -> & Hpre & Hty).
    exists ((k, t) :: pre), post. split; [reflexivity|]. split; [|exact Hty].
    constructor; auto.
Qed.

(** C2 (amended): for every descriptor whose output field names are
    distinct: if it has an output field of kind "MulticlassPreds", the getter
    yields the vocabulary of the first such field; if it has no such field
    and no field named "undefined", the getter is not total: it faults with
    a TypeError instead of yielding the empty list. *)
Theorem predClasses_first_vocab (modelSpec : ModelSpec) :
  NoDup (output modelSpec).*1 ->
  (firstOfKind (output modelSpec) "MulticlassPreds" = None ->
   "undefined" ∉ (output modelSpec).*1) ->
  predClasses modelSpec =
    match firstOfKind (output modelSpec) "MulticlassPreds" with
    | Some (_, ty) => Normal (vocab ty)
    | None => Throw TypeError
    end.
Proof.
  intros Hnd Hundef. unfold predClasses.
  destruct (firstOfKind (output modelSpec) "MulticlassPreds") as [[field ty]|]
    eqn:E.
  - destruct (firstOfKind_Some _ _ _ _ E) as (pre & post & Hout & Hpre & Hk).
    rewrite (findSpecKeys_first _ _ _ _ _ _ Hout Hpre Hk). simpl.
    by rewrite (getField_unique _ _ _ _ _ Hout Hnd).
  - rewrite (findSpecKeys_none _ _ (firstOfKind_None _ _ E)). simpl.
    by rewrite (getField_None _ _ (Hundef eq_refl)).
Qed.

Lemma NoDup_decide_list (l : list string) :
  bool_decide (NoDup l) = true -> NoDup l.
Proof. apply bool_decide_eq_true_1. Qed.

Lemma predClasses_first_vocab_witness :
  NoDup (output sampleModel).*1 /\
  predClasses sampleModel = Normal (Some ["cat"; "dog"]) /\
  NoDup (output gradientOnlyModel).*1 /\
  ("undefined" ∉ (output gradientOnlyModel).*1) /\
  predClasses gradientOnlyModel = Throw TypeError.
Proof.
  assert (Hnd1 : NoDup (output sampleModel).*1)
    by (apply NoDup_decide_list; vm_compute; reflexivity).
  assert (Hnd2 : NoDup (output gradientOnlyModel).*1)
    by (apply NoDup_decide_list; vm_compute; reflexivity).
  assert (Hun : "undefined" ∉ (output gradientOnlyModel).*1).
  { intros H. apply elem_of_cons in H as [H|H]; [discriminate | inversion H]. }
  split; [exact Hnd1|]. split.
  - refine (predClasses_first_vocab sampleModel Hnd1 _).
    vm_compute. discriminate.
  - split; [exact Hnd2|]. split; [exact Hun|].
    exact (predClasses_first_vocab gradientOnlyModel Hnd2 (fun _ => Hun)).
Defined.

(** C2, as first stated, fails: a descriptor with a single "Gradients" field
    has no "MulticlassPreds" field, and the getter faults instead of
    yielding the empty list. *)
Lemma predClasses_not_total :
  findSpecKeys (output gradientOnlyModel) "MulticlassPreds" = [] /\
  predClasses gradientOnlyModel = Throw TypeError /\
  predClasses gradientOnlyModel <> Normal (Some []).
Proof. split; [reflexivity|]. split; [reflexivity | discriminate]. Qed.

(** ** Enablement of the run button *)

Lemma shouldDisable_loop_enabled sliceService slices :
  shouldDisable_loop sliceService slices = false <->
  exists pre slice post,
    slices = pre ++ slice :: post /\
    Forall (undersized sliceService) pre /\
    usable sliceService slice.
Proof.
  induction slices as [|s rest IH]; cbn [shouldDisable_loop].
  - split; [discriminate|]. intros (pre & x & post & H & _).
    destruct pre; discriminate.
  - destruct (getSliceByName sliceService s) as [ids|] eqn:Es.
    + destruct (Nat.leb MIN_EXAMPLES_LENGTH (length ids)) eqn:El;
        [apply Nat.leb_le in El as Hge | apply Nat.leb_gt in El as Hlt].
      * split; [intros _|reflexivity].
        exists [], s, rest. repeat split; [constructor|]. exists ids. auto.
      * rewrite IH. split.
        -- intros (pre & x & post & -> & Hpre & Hx).
           exists (s :: pre), x, post. repeat split; [|exact Hx].
           constructor; [exists ids; auto | exact Hpre].
        -- intros (pre & x & post & Heq & Hpre & Hx).
           destruct pre as [|p pre]; simpl in Heq; injection Heq as <- Hrest.
           ++ destruct Hx as (ids' & Hids' & Hlen). rewrite Es in Hids'.
              injection Hids' as <-. lia.
           ++ exists pre, x, post. inversion Hpre; subst. auto.
    + split; [discriminate|].
      intros (pre & x & post & Heq & Hpre & Hx).
      destruct pre as [|p pre]; simpl in Heq; injection Heq as <- Hrest.
      * destruct Hx as (ids' & Hids' & _). congruence.
      * inversion Hpre as [|? ? (ids' & Hids' & _) _]; subst. congruence.
Qed.

(** C1 (amended): the run action is enabled exactly when some candidate
    resolves to at least two members and every candidate listed before it
    resolves (to fewer than two); a candidate that fails to resolve disables
    the action as soon as the loop meets it.  So an enabled action always has
    a candidate with at least two members, and an action none of whose
    candidates has two members is disabled. *)
Theorem shouldDisable_enabled_iff (sliceService : SliceService)
  (this : TCAVModule) :
  (shouldDisable sliceService this = false <->
   exists pre slice post,
     candidateSlices sliceService this = pre ++ slice :: post /\
     Forall (undersized sliceService) pre /\
     usable sliceService slice) /\
  (shouldDisable sliceService this = false ->
   Exists (usable sliceService) (candidateSlices sliceService this)) /\
  (Forall (fun slice => ~ usable sliceService slice)
     (candidateSlices sliceService this) ->
   shouldDisable sliceService this = true).
Proof.
  assert (Hiff := shouldDisable_loop_enabled sliceService
                    (candidateSlices sliceService this)).
  assert (Hex : shouldDisable sliceService this = false ->
                Exists (usable sliceService) (candidateSlices sliceService this)).
  { intros H. apply Hiff in H as (pre & x & post & -> & _ & Hx).
    apply Exists_app. right. by constructor. }
  split; [exact Hiff|]. split; [exact Hex|].
  intros Hall. apply not_false_iff_true. intros E.
  apply Hex in E. apply Exists_exists in E as (x & Hin & Hx).
  rewrite Forall_forall in Hall. exact (Hall x Hin Hx).
Qed.

Lemma shouldDisable_enabled_iff_witness :
  shouldDisable sampleService (set_selectedSlice "pair" initial) = false /\
  Exists (usable sampleService)
    (candidateSlices sampleService (set_selectedSlice "pair" initial)).
Proof.
  assert (H : shouldDisable sampleService (set_selectedSlice "pair" initial)
              = false) by reflexivity.
  split; [exact H|].
  exact (proj1 (proj2 (shouldDisable_enabled_iff sampleService
                         (set_selectedSlice "pair" initial))) H).
Defined.

(** C1, as first stated, fails: with "all" selected, the service lists a name
    that does not resolve before a name with two members; a candidate has
    two members, yet the action is disabled. *)
Lemma shouldDisable_unresolved_first :
  selectedSlice initial = ALL /\
  "pair" ∈ candidateSlices sampleService initial /\
  usable sampleService "pair" /\
  shouldDisable sampleService initial = true.
Proof.
  split; [reflexivity|]. split.
  - apply elem_of_cons. right. apply elem_of_cons. by left.
  - split; [|reflexivity]. exists ["id1"; "id2"]. split; [reflexivity|].
    unfold MIN_EXAMPLES_LENGTH. simpl. lia.
Qed.

(** ** Defaults at the first render *)

Lemma firstUpdated_layer modelSpec this :
  selectedLayer (firstUpdated modelSpec this).1 =
  if String.eqb (selectedLayer this) "" then
    match gradKeys modelSpec with g :: _ => g | [] => selectedLayer this end
  else selectedLayer this.
Proof.
  unfold firstUpdated.
  destruct (String.eqb (selectedLayer this) "");
    destruct (gradKeys modelSpec) as [|g l];
    destruct (String.eqb (selectedClass _) "");
    destruct (predClasses modelSpec) as [[[|c l']|]|]; reflexivity.
Qed.

Lemma firstUpdated_class modelSpec this :
  selectedClass (firstUpdated modelSpec this).1 =
  if String.eqb (selectedClass this) "" then
    match predClasses modelSpec with
    | Normal (Some (c :: _)) => c
    | _ => selectedClass this
    end
  else selectedClass this.
Proof.
  unfold firstUpdated.
  destruct (String.eqb (selectedLayer this) "");
    destruct (gradKeys modelSpec) as [|g l]; simpl;
    destruct (String.eqb (selectedClass this) "");
    destruct (predClasses modelSpec) as [[[|c l']|]|]; reflexivity.
Qed.

Lemma hasUpdated_step sys ev :
  hasUpdated sys = true -> hasUpdated (step sys ev) = true.
Proof.
  intros H. destruct ev as [svc ms|v|v|v|svc|i svc r]; simpl; try exact H.
  - unfold performUpdate. rewrite H. exact H.
  - unfold click. destruct (runTCAV svc (element sys)) as [this' [t| | |e]];
      exact H.
  - unfold settle. destruct (pending sys !! i) as [[t log]|]; [|exact H].
    destruct (runTCAV_resume svc (element sys) t r) as [this' [t'| | |e]];
      exact H.
Qed.

Lemma hasUpdated_steps events sys :
  hasUpdated sys = true -> hasUpdated (foldl step sys events) = true.
Proof.
  revert sys. induction events as [|ev events IH]; intros sys H; simpl.
  - exact H.
  - apply IH, hasUpdated_step, H.
Qed.

(** C7: at the first render an empty layer selection takes the first
    gradient layer when there is one, and an empty class selection takes the
    first predictable class when there is one; a selection that is not empty
    is never overwritten; and once the first render is done, no later render
    changes anything, whatever happens in between. *)
Theorem first_render_defaults (sliceService : SliceService)
  (modelSpec : ModelSpec) (sys : System) :
  let sys' := (performUpdate sliceService modelSpec sys).1 in
  (hasUpdated sys = false ->
   (forall g rest,
      selectedLayer (element sys) = "" ->
      gradKeys modelSpec = g :: rest ->
      selectedLayer (element sys') = g) /\
   (forall c rest,
      selectedClass (element sys) = "" ->
      predClasses modelSpec = Normal (Some (c :: rest)) ->
      selectedClass (element sys') = c)) /\
  (selectedLayer (element sys) <> "" ->
   selectedLayer (element sys') = selectedLayer (element sys)) /\
  (selectedClass (element sys) <> "" ->
   selectedClass (element sys') = selectedClass (element sys)) /\
  (hasUpdated sys = true -> sys' = sys) /\
  (forall events sliceService2 modelSpec2,
     step (foldl step sys' events) (Update sliceService2 modelSpec2) =
     foldl step sys' events).
Proof.
  intros sys'. subst sys'. unfold performUpdate.
  destruct (hasUpdated sys) eqn:Hup; simpl.
  - split; [discriminate|]. split; [reflexivity|]. split; [reflexivity|].
    split; [reflexivity|]. intros events svc2 ms2.
    unfold performUpdate. by rewrite (hasUpdated_steps events sys Hup).
  - split; [|split; [|split; [|split]]].
    + intros _. split.
      * intros g rest Hl Hg. rewrite firstUpdated_layer, Hl, Hg. reflexivity.
      * intros c rest Hc Hp. rewrite firstUpdated_class, Hc, Hp. reflexivity.
    + intros Hne. rewrite firstUpdated_layer.
      destruct (String.eqb_spec (selectedLayer (element sys)) "");
        [contradiction | reflexivity].
    + intros Hne. rewrite firstUpdated_class.
      destruct (String.eqb_spec (selectedClass (element sys)) "");
        [contradiction | reflexivity].
    + discriminate.
    + intros events svc2 ms2. unfold performUpdate.
      by rewrite hasUpdated_steps.
Qed.

Lemma first_render_defaults_witness :
  hasUpdated boot = false /\
  selectedLayer (element boot) = "" /\
  selectedClass (element boot) = "" /\
  gradKeys sampleModel = ["L1"; "L2"] /\
  predClasses sampleModel = Normal (Some ["cat"; "dog"]) /\
  selectedLayer (element (performUpdate sampleService sampleModel boot).1)
    = "L1" /\
  selectedClass (element (performUpdate sampleService sampleModel boot).1)
    = "cat".
Proof.
  destruct (first_render_defaults sampleService sampleModel boot)
    as (Hfirst & _).
  destruct (Hfirst eq_refl) as (Hlayer & Hclass).
  do 5 (split; [reflexivity|]). split.
  - exact (Hlayer "L1" ["L2"] eq_refl eq_refl).
  - exact (Hclass "cat" ["dog"] eq_refl eq_refl).
Defined.

(** ** The run workflow *)

Section Run.
Variable sliceService : SliceService.
Implicit Types (this : TCAVModule) (t : RunTask) (status : RunStatus).

(** What the loop can end in, from its head. *)
Lemma runTCAV_loop_cases slices this cands acc :
  runTCAV_loop sliceService this cands acc slices
    = (set_scores acc (set_isLoading false this), Completed) \/
  exists pre slice rest ids,
    slices = pre ++ slice :: rest /\
    Forall (fun s => usableb sliceService s = false) pre /\
    getSliceByName sliceService slice = Some ids /\
    MIN_EXAMPLES_LENGTH <= length ids /\
    runTCAV_loop sliceService this cands acc slices
      = (this,
         Suspended {| task_slicesToRun := cands; task_scores := acc;
                      task_slice := slice; task_rest := rest;
                      task_config :=
                        {| concept_set_ids := ids;
                           class_to_explain := selectedClass this;
                           grad_layer := selectedLayer this |} |}).
Proof.
  induction slices as [|s rest IH]; cbn [runTCAV_loop]; [by left|].
  assert (Hskip : usableb sliceService s = false ->
    runTCAV_loop sliceService this cands acc rest
      = (set_scores acc (set_isLoading false this), Completed) \/
    exists pre slice rest0 ids,
      s :: rest = pre ++ slice :: rest0 /\
      Forall (fun s => usableb sliceService s = false) pre /\
      getSliceByName sliceService slice = Some ids /\
      MIN_EXAMPLES_LENGTH <= length ids /\
      runTCAV_loop sliceService this cands acc rest
        = (this,
           Suspended {| task_slicesToRun := cands; task_scores := acc;
                        task_slice := slice; task_rest := rest0;
                        task_config :=
                          {| concept_set_ids := ids;
                             class_to_explain := selectedClass this;
                             grad_layer := selectedLayer this |} |})).
  { intros Hs. destruct IH as [IH|(pre & x & rest0 & ids & -> & Hpre & IH)];
      [by left|right].
    exists (s :: pre), x, rest0, ids. split; [reflexivity|].
    split; [by constructor | exact IH]. }
  unfold usableb in Hskip.
  destruct (getSliceByName sliceService s) as [ids|] eqn:Es; [|by apply Hskip].
  destruct (Nat.ltb (length ids) MIN_EXAMPLES_LENGTH) eqn:El.
  - apply Hskip. apply Nat.ltb_lt in El. apply Nat.leb_gt. exact El.
  - right. apply Nat.ltb_ge in El. exists [], s, rest, ids.
    split; [reflexivity|]. split; [constructor|]. auto.
Qed.

Lemma frame_refl this : frame this this.
Proof. by destruct this. Qed.

Lemma frame_trans this1 this2 this3 :
  frame this1 this2 -> frame this2 this3 -> frame this1 this3.
Proof. unfold frame. intros H12 ->. rewrite H12. reflexivity. Qed.

Lemma frame_same_selection this this' :
  frame this this' -> same_selection this' this.
Proof. intros ->. by repeat split. Qed.

Lemma runTCAV_loop_frame slices this cands acc :
  frame this (runTCAV_loop sliceService this cands acc slices).1.
Proof.
  destruct (runTCAV_loop_cases slices this cands acc)
    as [->|(? & ? & ? & ? & _ & _ & _ & _ & ->)]; simpl.
  - reflexivity.
  - apply frame_refl.
Qed.

Lemma runTCAV_start_frame this :
  frame this (runTCAV sliceService this).1.
Proof.
  unfold runTCAV. eapply frame_trans; [|apply runTCAV_loop_frame].
  reflexivity.
Qed.

Lemma runTCAV_resume_frame this t result :
  frame this (runTCAV_resume sliceService this t result).1.
Proof.
  destruct result as [[|r0 tl]|]; simpl.
  - apply frame_refl.
  - apply runTCAV_loop_frame.
  - reflexivity.
Qed.

Lemma drive_frame responses this status :
  frame this (drive sliceService this status responses).1.
Proof.
  revert this status.
  induction responses as [|r rest IH]; intros this status.
  - destruct status; apply frame_refl.
  - destruct status as [t| | |e]; simpl; try apply frame_refl.
    pose proof (runTCAV_resume_frame this t r) as Hr.
    destruct (runTCAV_resume sliceService this t r) as [this' status'].
    eapply frame_trans; [exact Hr | apply IH].
Qed.

Lemma run_frame this responses :
  frame this (run sliceService this responses).1.
Proof.
  unfold run. pose proof (runTCAV_start_frame this) as Hs.
  destruct (runTCAV sliceService this) as [this' status].
  eapply frame_trans; [exact Hs | apply drive_frame].
Qed.

(** While a run is suspended it has written nothing but the loading
    flag. *)
Lemma runTCAV_loop_suspended slices this cands acc this' t :
  runTCAV_loop sliceService this cands acc slices = (this', Suspended t) ->
  this' = this.
Proof.
  destruct (runTCAV_loop_cases slices this cands acc)
    as [->|(? & ? & ? & ? & _ & _ & _ & _ & ->)]; [discriminate|].
  by intros [= <- _].
Qed.

Lemma runTCAV_resume_suspended this t result this' t' :
  runTCAV_resume sliceService this t result = (this', Suspended t') ->
  this' = this.
Proof.
  destruct result as [[|r0 tl]|]; simpl; try discriminate.
  apply runTCAV_loop_suspended.
Qed.

Lemma drive_terminal responses this status :
  (forall t, status <> Suspended t) ->
  drive sliceService this status responses = (this, status).
Proof.
  intros H. destruct status as [t| | |e], responses; try reflexivity.
  by destruct (H t).
Qed.

Lemma drive_suspended responses this status this' t' :
  drive sliceService this status responses = (this', Suspended t') ->
  this' = this.
Proof.
  revert this status.
  induction responses as [|r rest IH]; intros this status.
  - destruct status; simpl; congruence.
  - destruct status as [t| | |e]; simpl; try congruence.
    destruct (runTCAV_resume sliceService this t r) as [this1 status1] eqn:E.
    destruct status1 as [t1| | |e1];
      try (rewrite drive_terminal by discriminate; discriminate).
    intros H. apply IH in H as ->.
    by apply runTCAV_resume_suspended in E.
Qed.

Lemma run_suspended responses this this' t' :
  run sliceService this responses = (this', Suspended t') ->
  this' = set_isLoading true this.
Proof.
  unfold run.
  destruct (runTCAV sliceService this) as [this1 status1] eqn:E.
  destruct status1 as [t1| | |e1];
    try (rewrite drive_terminal by discriminate; discriminate).
  intros H. apply drive_suspended in H as ->.
  unfold runTCAV in E. by apply runTCAV_loop_suspended in E.
Qed.

Lemma drive_app pre post this status :
  drive sliceService this status (pre ++ post) =
  drive sliceService (drive sliceService this status pre).1
    (drive sliceService this status pre).2 post.
Proof.
  revert this status. induction pre as [|r pre IH]; intros this status.
  - by destruct status.
  - destruct status as [t| | |e]; simpl;
      try (by rewrite drive_terminal by discriminate).
    destruct (runTCAV_resume sliceService this t r) as [this1 status1].
    apply IH.
Qed.

Lemma run_app pre post this :
  run sliceService this (pre ++ post) =
  drive sliceService (run sliceService this pre).1
    (run sliceService this pre).2 post.
Proof.
  unfold run. destruct (runTCAV sliceService this) as [this1 status1].
  apply drive_app.
Qed.
End Run.

(** The element after a click or after a request has settled. *)
Lemma element_click sliceService sys :
  element (step sys (Click sliceService))
    = (runTCAV sliceService (element sys)).1.
Proof.
  simpl. unfold click.
  by destruct (runTCAV sliceService (element sys)) as [this1 [t| | |e]].
Qed.

Lemma element_settle i sliceService result sys :
  element (settle i sliceService result sys) = element sys \/
  exists t,
    element (settle i sliceService result sys)
      = (runTCAV_resume sliceService (element sys) t result).1.
Proof.
  unfold settle. destruct (pending sys !! i) as [[t log]|]; [|by left].
  right. exists t.
  by destruct (runTCAV_resume sliceService (element sys) t result)
    as [this1 [t1| | |e]].
Qed.

(** C9: a run writes the loading flag and the score map and nothing else:
    across the call of [runTCAV], across each resumption (normal, stale or
    faulting) and across a whole run, whatever its outcome, the selected
    subset, layer and class are what they were. *)
Theorem runTCAV_preserves_selection (sliceService : SliceService)
  (this : TCAVModule) (t : RunTask) (result : option (list TCAVResult))
  (responses : list (option (list TCAVResult))) :
  (frame this (runTCAV sliceService this).1 /\
   same_selection (runTCAV sliceService this).1 this) /\
  (frame this (runTCAV_resume sliceService this t result).1 /\
   same_selection (runTCAV_resume sliceService this t result).1 this) /\
  (frame this (run sliceService this responses).1 /\
   same_selection (run sliceService this responses).1 this) /\
  (forall sys,
     same_selection (element (step sys (Click sliceService))) (element sys)) /\
  (forall sys i,
     same_selection (element (step sys (Settle i sliceService result)))
       (element sys)).
Proof.
  pose proof (runTCAV_start_frame sliceService this) as H1.
  pose proof (runTCAV_resume_frame sliceService this t result) as H2.
  pose proof (run_frame sliceService this responses) as H3.
  split; [split; [assumption | by apply frame_same_selection]|].
  split; [split; [assumption | by apply frame_same_selection]|].
  split; [split; [assumption | by apply frame_same_selection]|].
  split.
  - intros sys. rewrite element_click.
    apply frame_same_selection, runTCAV_start_frame.
  - intros sys i. simpl.
    destruct (element_settle i sliceService result sys) as [->|(t1 & ->)].
    + by repeat split.
    + apply frame_same_selection, runTCAV_resume_frame.
Qed.

(** C4: when a request of a run comes back stale, the run clears the loading
    flag and ends there: the outcome is [Aborted] whatever answers would have
    followed, and the controller is the one from before the run with the
    loading flag false, so the score map is untouched. *)
Theorem stale_result_aborts (sliceService : SliceService) (this : TCAVModule)
  (pre post : list (option (list TCAVResult)))
  (this1 : TCAVModule) (t : RunTask) :
  run sliceService this pre = (this1, Suspended t) ->
  run sliceService this (pre ++ None :: post)
    = (set_isLoading false this, Aborted) /\
  scores (run sliceService this (pre ++ None :: post)).1 = scores this /\
  isLoading (run sliceService this (pre ++ None :: post)).1 = false /\
  (forall sys i log,
     pending sys !! i = Some (t, log) ->
     settle i sliceService None sys
       = {| element := set_isLoading false (element sys);
            hasUpdated := hasUpdated sys;
            pending := delete i (pending sys);
            produced := produced sys |}).
Proof.
  intros Hpre.
  assert (Hsettle : forall sys i log,
     pending sys !! i = Some (t, log) ->
     settle i sliceService None sys
       = {| element := set_isLoading false (element sys);
            hasUpdated := hasUpdated sys;
            pending := delete i (pending sys);
            produced := produced sys |}).
  { intros sys i log Hi. unfold settle. by rewrite Hi. }
  assert (Hrun : run sliceService this (pre ++ None :: post)
                 = (set_isLoading false this, Aborted)).
  { rewrite run_app, Hpre. simpl.
    rewrite drive_terminal by discriminate.
    apply run_suspended in Hpre as ->. reflexivity. }
  rewrite Hrun. auto.
Qed.

Lemma stale_result_aborts_witness :
  run sampleService shownBefore []
    = (set_isLoading true shownBefore, Suspended
         {| task_slicesToRun := ["gone"; "pair"]; task_scores := ∅;
            task_slice := "pair"; task_rest := [];
            task_config := {| concept_set_ids := ["id1"; "id2"];
                              class_to_explain := ""; grad_layer := "" |} |}) /\
  run sampleService shownBefore ([] ++ None :: [Some [highSignificance]])
    = (set_isLoading false shownBefore, Aborted).
Proof.
  assert (H : run sampleService shownBefore []
    = (set_isLoading true shownBefore, Suspended
         {| task_slicesToRun := ["gone"; "pair"]; task_scores := ∅;
            task_slice := "pair"; task_rest := [];
            task_config := {| concept_set_ids := ["id1"; "id2"];
                              class_to_explain := ""; grad_layer := "" |} |}))
    by reflexivity.
  split; [exact H|].
  exact (proj1 (stale_result_aborts sampleService shownBefore []
                  [Some [highSignificance]] _ _ H)).
Defined.

(** C3: on a result that is not stale, the score of its first entry is put
    in the working map under the name of the subset exactly when the p-value
    of that entry is below 0.5; otherwise the working map is left as it was,
    the run goes on as if the subset had been skipped, and no fault is
    raised. *)
Theorem significance_filter (sliceService : SliceService) (this : TCAVModule)
  (t : RunTask) (r0 : TCAVResult) (tl : list TCAVResult) :
  runTCAV_resume sliceService this t (Some (r0 :: tl))
    = runTCAV_loop sliceService this (task_slicesToRun t)
        (recordResult t r0) (task_rest t) /\
  (significant r0 ->
   recordResult t r0 = <[task_slice t := score (result r0)]> (task_scores t)) /\
  (~ significant r0 -> recordResult t r0 = task_scores t) /\
  (task_scores t !! task_slice t = None ->
   (recordResult t r0 !! task_slice t = Some (score (result r0))
    <-> significant r0)) /\
  (forall e,
     (runTCAV_resume sliceService this t (Some (r0 :: tl))).2 <> Rejected e) /\
  (~ significant r0 ->
   runTCAV_resume sliceService this t (Some (r0 :: tl))
     = runTCAV_loop sliceService this (task_slicesToRun t)
         (task_scores t) (task_rest t)).
Proof.
  assert (Hdrop : ~ significant r0 ->
   runTCAV_resume sliceService this t (Some (r0 :: tl))
     = runTCAV_loop sliceService this (task_slicesToRun t)
         (task_scores t) (task_rest t)).
  { unfold significant. intros H. simpl. unfold recordResult.
    by destruct (PrimFloat.ltb (p_val r0) 0.5). }
  cut (runTCAV_resume sliceService this t (Some (r0 :: tl))
    = runTCAV_loop sliceService this (task_slicesToRun t)
        (recordResult t r0) (task_rest t) /\
  (significant r0 ->
   recordResult t r0 = <[task_slice t := score (result r0)]> (task_scores t)) /\
  (~ significant r0 -> recordResult t r0 = task_scores t) /\
  (task_scores t !! task_slice t = None ->
   (recordResult t r0 !! task_slice t = Some (score (result r0))
    <-> significant r0)) /\
  (forall e,
     (runTCAV_resume sliceService this t (Some (r0 :: tl))).2 <> Rejected e));
    [tauto|].
  clear Hdrop. unfold significant, recordResult.
  split; [reflexivity|].
  destruct (PrimFloat.ltb (p_val r0) 0.5) eqn:E.
  - split; [reflexivity|]. split; [by intros []|]. split.
    + intros _. by rewrite lookup_insert_eq.
    + intros e. simpl. unfold recordResult. rewrite E.
      destruct (runTCAV_loop_cases sliceService (task_rest t) this
                  (task_slicesToRun t)
                  (<[task_slice t := score (result r0)]> (task_scores t)))
        as [->|(? & ? & ? & ? & _ & _ & _ & _ & ->)]; discriminate.
  - split; [discriminate|]. split; [reflexivity|]. split.
    + intros ->. split; discriminate.
    + intros e. simpl. unfold recordResult. rewrite E.
      destruct (runTCAV_loop_cases sliceService (task_rest t) this
                  (task_slicesToRun t) (task_scores t))
        as [->|(? & ? & ? & ? & _ & _ & _ & _ & ->)]; discriminate.
Qed.

Lemma significance_filter_witness :
  (significant highSignificance /\
   recordResult sampleTask highSignificance !! "pair" = Some 0.7%float) /\
  (~ significant lowSignificance /\
   recordResult sampleTask lowSignificance !! "pair" = None).
Proof.
  assert (Hhigh : significant highSignificance) by reflexivity.
  assert (Hlow : ~ significant lowSignificance) by discriminate.
  split; (split; [assumption|]).
  - destruct (significance_filter sampleService initial sampleTask
                highSignificance []) as (_ & Hrec & _).
    rewrite (Hrec Hhigh). reflexivity.
  - destruct (significance_filter sampleService initial sampleTask
                lowSignificance []) as (_ & _ & Hdrop & _).
    rewrite (Hdrop Hlow). reflexivity.
Defined.

(** ** Replacement of the score map *)

Section Completion.
Variable sliceService : SliceService.

Lemma runTCAV_loop_skip this cands acc slice rest :
  usableb sliceService slice = false ->
  runTCAV_loop sliceService this cands acc (slice :: rest)
    = runTCAV_loop sliceService this cands acc rest.
Proof.
  unfold usableb. cbn [runTCAV_loop].
  destruct (getSliceByName sliceService slice) as [ids|]; [|reflexivity].
  intros H. apply Nat.leb_gt, Nat.ltb_lt in H. by rewrite H.
Qed.

Lemma runTCAV_loop_request this cands acc slice rest :
  usableb sliceService slice = true ->
  exists cfg,
    getSliceByName sliceService slice = Some (concept_set_ids cfg) /\
    MIN_EXAMPLES_LENGTH <= length (concept_set_ids cfg) /\
    class_to_explain cfg = selectedClass this /\
    grad_layer cfg = selectedLayer this /\
    runTCAV_loop sliceService this cands acc (slice :: rest)
      = (this,
         Suspended {| task_slicesToRun := cands; task_scores := acc;
                      task_slice := slice; task_rest := rest;
                      task_config := cfg |}).
Proof.
  unfold usableb. cbn [runTCAV_loop].
  destruct (getSliceByName sliceService slice) as [ids|]; [|discriminate].
  intros H. apply Nat.leb_le in H.
  exists {| concept_set_ids := ids; class_to_explain := selectedClass this;
            grad_layer := selectedLayer this |}.
  repeat split; [exact H|]. apply Nat.ltb_ge in H. by rewrite H.
Qed.

Lemma qualifies_nil responses k : ~ qualifies sliceService [] responses k.
Proof. intros (i & r0 & tl & H & _). by destruct i. Qed.

Lemma qualifies_skip slice rest responses k :
  usableb sliceService slice = false ->
  qualifies sliceService (slice :: rest) responses k <->
  qualifies sliceService rest responses k.
Proof. intros H. unfold qualifies, requests. simpl. by rewrite H. Qed.

Lemma qualifies_unanswered slices k : ~ qualifies sliceService slices [] k.
Proof. intros (i & r0 & tl & _ & H & _). by destruct i. Qed.

Lemma qualifies_request slice rest r responses k :
  usableb sliceService slice = true ->
  qualifies sliceService (slice :: rest) (r :: responses) k <->
  (k = slice /\ exists r0 tl, r = Some (r0 :: tl) /\ significant r0) \/
  qualifies sliceService rest responses k.
Proof.
  intros H. unfold qualifies, requests. simpl. rewrite H. split.
  - intros (i & r0 & tl & Hk & Hr & Hs). destruct i as [|i]; simpl in *.
    + left. injection Hk as <-. injection Hr as ->. eauto.
    + right. eauto 6.
  - intros [(-> & r0 & tl & -> & Hs)|(i & r0 & tl & Hk & Hr & Hs)].
    + exists 0, r0, tl. auto.
    + exists (S i), r0, tl. auto.
Qed.

Lemma recordResult_dom t r0 k :
  is_Some (recordResult t r0 !! k) <->
  is_Some (task_scores t !! k) \/ (k = task_slice t /\ significant r0).
Proof.
  unfold recordResult, significant.
  destruct (PrimFloat.ltb (p_val r0) 0.5).
  - rewrite lookup_insert_is_Some. split.
    + intros [<-|[_ H]]; auto.
    + intros [H|[-> _]]; [|by left].
      destruct (decide (task_slice t = k)); auto.
  - split; [auto|]. intros [H|[_ H]]; [exact H | discriminate].
Qed.

(** A run that completes leaves the working map it started the loop with,
    extended by the names whose answer passed the test. *)
Lemma completed_dom slices this cands acc responses this' :
  drive sliceService
    (runTCAV_loop sliceService this cands acc slices).1
    (runTCAV_loop sliceService this cands acc slices).2 responses
    = (this', Completed) ->
  forall k,
    is_Some (scores this' !! k) <->
    is_Some (acc !! k) \/ qualifies sliceService slices responses k.
Proof.
  revert acc responses.
  induction slices as [|s rest IH]; intros acc responses Hrun k.
  - simpl in Hrun. rewrite drive_terminal in Hrun by discriminate.
    injection Hrun as <-. simpl. split; [auto|].
    intros [H|H]; [exact H | by apply qualifies_nil in H].
  - destruct (usableb sliceService s) eqn:Hs.
    + destruct (runTCAV_loop_request this cands acc s rest Hs)
        as (cfg & _ & _ & _ & _ & Heq).
      rewrite Heq in Hrun. simpl in Hrun.
      destruct responses as [|r responses]; [discriminate|].
      rewrite (qualifies_request _ _ _ _ _ Hs).
      destruct r as [[|r0 tl]|]; simpl in Hrun;
        try (rewrite drive_terminal in Hrun by discriminate; discriminate).
      destruct (runTCAV_loop sliceService this cands _ rest)
        as [this1 status1] eqn:El in Hrun.
      pose proof (IH (recordResult
                        {| task_slicesToRun := cands; task_scores := acc;
                           task_slice := s; task_rest := rest;
                           task_config := cfg |} r0) responses) as IH'.
      rewrite El in IH'.
      rewrite (IH' Hrun k), recordResult_dom. simpl. split.
      * intros [[H|[-> H]]|H]; [by left| |by right; right].
        right. left. split; [reflexivity|]. exists r0, tl. auto.
      * intros [H|[(-> & r1 & tl1 & [= <- <-] & H)|H]]; auto.
    + rewrite (runTCAV_loop_skip _ _ _ _ _ Hs) in Hrun.
      rewrite (qualifies_skip _ _ _ _ Hs). by apply IH.
Qed.

Lemma run_completed_dom this responses this' :
  run sliceService this responses = (this', Completed) ->
  forall k,
    is_Some (scores this' !! k) <->
    qualifies sliceService (candidateSlices sliceService this) responses k.
Proof.
  unfold run, runTCAV. intros Hrun k.
  destruct (runTCAV_loop sliceService (set_isLoading true this)
              (candidateSlices sliceService (set_isLoading true this)) ∅
              (candidateSlices sliceService (set_isLoading true this)))
    as [this1 status1] eqn:El.
  pose proof (completed_dom
                (candidateSlices sliceService (set_isLoading true this))
                (set_isLoading true this)
                (candidateSlices sliceService (set_isLoading true this))
                ∅ responses this') as H.
  rewrite El in H. rewrite (H Hrun k), lookup_empty.
  change (candidateSlices sliceService (set_isLoading true this))
    with (candidateSlices sliceService this).
  split; [intros [[? H']|H']; [discriminate | exact H'] | auto].
Qed.
End Completion.

(** C5: a run that completes replaces the score map by its working map.
    After a completed run followed by a second completed run, the map holds
    an entry exactly for the names that got a significant result in the
    second run, so nothing of the first run survives; and at every point of
    the second run the map is either still the one the run found or already
    the final one. *)
Theorem replace_not_merge (sliceService1 sliceService2 : SliceService)
  (this0 this1 this2 : TCAVModule)
  (responses1 responses2 : list (option (list TCAVResult))) :
  run sliceService1 this0 responses1 = (this1, Completed) ->
  run sliceService2 this1 responses2 = (this2, Completed) ->
  (forall k,
     is_Some (scores this2 !! k) <->
     qualifies sliceService2 (candidateSlices sliceService2 this1)
       responses2 k) /\
  (forall pre post,
     responses2 = pre ++ post ->
     scores (run sliceService2 this1 pre).1 = scores this1 \/
     run sliceService2 this1 pre = (this2, Completed)).
Proof.
  intros _ Hrun2. split.
  - apply run_completed_dom. exact Hrun2.
  - intros pre post ->. rewrite run_app in Hrun2.
    destruct (run sliceService2 this1 pre) as [th [t| | |e]] eqn:E;
      simpl in *.
    + left. apply run_suspended in E as ->. reflexivity.
    + right. by rewrite drive_terminal in Hrun2 by discriminate.
    + rewrite drive_terminal in Hrun2 by discriminate. discriminate.
    + rewrite drive_terminal in Hrun2 by discriminate. discriminate.
Qed.

Lemma replace_not_merge_witness :
  run serviceXY initial [Some [highSignificance]; Some [lowSignificance]]
    = (afterX, Completed) /\
  run serviceXY afterX [Some [lowSignificance]; Some [highSignificance]]
    = (afterY, Completed) /\
  scores afterY !! "X" = None /\
  (is_Some (scores afterY !! "Y") <->
   qualifies serviceXY (candidateSlices serviceXY afterX)
     [Some [lowSignificance]; Some [highSignificance]] "Y").
Proof.
  assert (H1 : run serviceXY initial
                 [Some [highSignificance]; Some [lowSignificance]]
               = (afterX, Completed)) by (vm_compute; reflexivity).
  assert (H2 : run serviceXY afterX
                 [Some [lowSignificance]; Some [highSignificance]]
               = (afterY, Completed)) by (vm_compute; reflexivity).
  split; [exact H1|]. split; [exact H2|]. split; [reflexivity|].
  exact (proj1 (replace_not_merge serviceXY serviceXY initial afterX afterY
                  _ _ H1 H2) "Y").
Defined.

(** ** The invariant of the score map *)

Section Invariant.
Implicit Types (sys : System) (log : RunLog).

Lemma justified_empty cands log : justified cands log ∅.
Proof. intros k v H. by rewrite lookup_empty in H. Qed.

Lemma passed_mono k v log log2 : passed k v log -> passed k v (log ++ log2).
Proof.
  intros (cfg & r0 & Hin & H). exists cfg, r0. split; [|exact H].
  apply elem_of_app. by left.
Qed.

Lemma justified_record t log r0 :
  task_ok (t, log) ->
  justified (task_slicesToRun t)
    (log ++ [(task_slice t, task_config t, r0)]) (recordResult t r0).
Proof.
  intros (Hj & Hslice & _ & Hlen) k v. simpl in *. unfold recordResult.
  destruct (PrimFloat.ltb (p_val r0) 0.5) eqn:E.
  - rewrite lookup_insert. case_decide as Hk.
    + intros [= <-]. subst k. split; [exact Hslice|].
      exists (task_config t), r0. split; [|by auto].
      apply elem_of_app. right. apply elem_of_cons. by left.
    + intros H. destruct (Hj k v H). split; [done|]. by apply passed_mono.
  - intros H. destruct (Hj k v H). split; [done|]. by apply passed_mono.
Qed.

Lemma runTCAV_loop_ok sliceService this cands log acc slices :
  justified cands log acc ->
  slices ⊆ cands ->
  match runTCAV_loop sliceService this cands acc slices with
  | (this1, Completed) => this1 = set_scores acc (set_isLoading false this)
  | (this1, Suspended t) => this1 = this /\ task_ok (t, log)
  | _ => False
  end.
Proof.
  intros Hj Hsub.
  destruct (runTCAV_loop_cases sliceService slices this cands acc)
    as [->|(pre & x & rest & ids & -> & _ & _ & Hlen & ->)];
    [reflexivity|].
  split; [reflexivity|]. unfold task_ok. simpl.
  split; [exact Hj|]. split; [|split; [|exact Hlen]].
  - apply Hsub, elem_of_app. right. apply elem_of_cons. by left.
  - intros y Hy. apply Hsub, elem_of_app. right. apply elem_of_cons.
    by right.
Qed.

Lemma scores_firstUpdated modelSpec this :
  scores (firstUpdated modelSpec this).1 = scores this.
Proof.
  unfold firstUpdated.
  destruct (String.eqb (selectedLayer this) "");
    destruct (gradKeys modelSpec) as [|g l];
    destruct (String.eqb (selectedClass _) "");
    destruct (predClasses modelSpec) as [[[|c l2]|]|]; reflexivity.
Qed.

Lemma invariant_same_scores sys sys2 :
  scores (element sys2) = scores (element sys) ->
  produced sys2 = produced sys ->
  pending sys2 = pending sys ->
  lifetime_invariant sys -> lifetime_invariant sys2.
Proof. unfold lifetime_invariant. by intros -> -> ->. Qed.

Lemma invariant_click sliceService sys :
  lifetime_invariant sys -> lifetime_invariant (click sliceService sys).
Proof.
  intros [Hs Hp]. unfold click, runTCAV.
  pose proof (runTCAV_loop_ok sliceService
                (set_isLoading true (element sys))
                (candidateSlices sliceService
                   (set_isLoading true (element sys)))
                [] ∅ _ (justified_empty _ _) (reflexivity _)) as Hl.
  destruct (runTCAV_loop _ _ _ _ _) as [this1 [t| | |e]];
    try contradiction.
  - destruct Hl as [-> Ht]. split; simpl; [exact Hs|].
    apply Forall_app. split; [exact Hp|]. by constructor.
  - subst this1. split; simpl; [apply justified_empty | exact Hp].
Qed.

Lemma invariant_settle i sliceService result sys :
  lifetime_invariant sys ->
  lifetime_invariant (settle i sliceService result sys).
Proof.
  intros [Hs Hp]. unfold settle.
  destruct (pending sys !! i) as [[t log]|] eqn:Ei; [|by split].
  assert (Ht : task_ok (t, log)).
  { rewrite Forall_lookup in Hp. exact (Hp i _ Ei). }
  destruct result as [[|r0 tl]|]; simpl.
  - split; simpl; [exact Hs | by apply Forall_delete].
  - pose proof (runTCAV_loop_ok sliceService (element sys)
                  (task_slicesToRun t)
                  (log ++ [(task_slice t, task_config t, r0)])
                  (recordResult t r0) (task_rest t)
                  (justified_record t log r0 Ht)) as Hl.
    pose proof Ht as (_ & _ & Hrest & _). specialize (Hl Hrest).
    destruct (runTCAV_loop _ _ _ _ _) as [this1 [t1| | |e]];
      try contradiction.
    + destruct Hl as [-> Ht1]. split; simpl; [exact Hs|].
      by apply Forall_insert.
    + subst this1. split; simpl; [|by apply Forall_delete].
      by apply justified_record.
  - split; simpl; [exact Hs | by apply Forall_delete].
Qed.

Lemma invariant_step sys ev :
  lifetime_invariant sys -> lifetime_invariant (step sys ev).
Proof.
  destruct ev as [svc ms|v|v|v|svc|i svc r]; simpl;
    try (by apply invariant_same_scores).
  - unfold performUpdate. destruct (hasUpdated sys); [done|].
    apply invariant_same_scores; try reflexivity.
    apply scores_firstUpdated.
  - apply invariant_click.
  - apply invariant_settle.
Qed.

Lemma invariant_lifetime events : lifetime_invariant (lifetime events).
Proof.
  unfold lifetime.
  assert (H : lifetime_invariant boot) by (split; [reflexivity|constructor]).
  revert H. generalize boot.
  induction events as [|ev events IH]; intros sys H; simpl; [exact H|].
  apply IH, invariant_step, H.
Qed.

Lemma invariant_justified sys :
  lifetime_invariant sys -> scores_justified sys.
Proof.
  intros [Hs _] k v Hk. destruct (produced sys) as [[cands log]|].
  - exists cands, log. split; [reflexivity|]. exact (Hs k v Hk).
  - rewrite Hs, lookup_empty in Hk. discriminate.
Qed.

Lemma runTCAV_loop_all_skipped sliceService this cands acc slices :
  Forall (fun slice => usableb sliceService slice = false) slices ->
  runTCAV_loop sliceService this cands acc slices
    = (set_scores acc (set_isLoading false this), Completed).
Proof.
  induction 1 as [|s rest Hs _ IH]; [reflexivity|].
  by rewrite runTCAV_loop_skip.
Qed.
End Invariant.

(** C6: whatever has happened to an element (renders, changes of selection,
    clicks on the run button, requests settling in any order and with any
    outcome), each entry of its score map belongs to a name of the candidate
    list of the run that produced the map, and that run got for this name,
    asked with at least two members, a result whose p-value is below 0.5 and
    whose score is the entry; a run that skips every candidate raises no
    fault and produces the empty map, and the property holds after it. *)
Theorem scores_invariant (events : list Event) :
  scores_justified (lifetime events) /\
  (forall sliceService,
     Forall (fun slice => usableb sliceService slice = false)
       (candidateSlices sliceService (element (lifetime events))) ->
     runTCAV sliceService (element (lifetime events))
       = (set_scores ∅ (set_isLoading false (element (lifetime events))),
          Completed) /\
     scores_justified (lifetime (events ++ [Click sliceService]))).
Proof.
  split; [apply invariant_justified, invariant_lifetime|].
  intros svc Hall. split.
  - unfold runTCAV.
    change (candidateSlices svc (set_isLoading true (element (lifetime events))))
      with (candidateSlices svc (element (lifetime events))).
    by rewrite runTCAV_loop_all_skipped.
  - apply invariant_justified, invariant_lifetime.
Qed.

Lemma scores_invariant_witness :
  Forall (fun slice => usableb sampleService slice = false)
    (candidateSlices sampleService
       (element (lifetime [SliceChange "gone"]))) /\
  runTCAV sampleService (element (lifetime [SliceChange "gone"]))
    = (set_scores ∅
         (set_isLoading false (element (lifetime [SliceChange "gone"]))),
       Completed).
Proof.
  assert (H : Forall (fun slice => usableb sampleService slice = false)
                (candidateSlices sampleService
                   (element (lifetime [SliceChange "gone"]))))
    by (repeat constructor).
  split; [exact H|].
  exact (proj1 (proj2 (scores_invariant [SliceChange "gone"])
                  sampleService H)).
Defined.


(** * Further properties of the module *)

(** ** Requests *)

Lemma runTCAV_loop_suspended_config sliceService slices this cands acc this1 t :
  runTCAV_loop sliceService this cands acc slices = (this1, Suspended t) ->
  task_slicesToRun t = cands /\
  task_slice t ∈ slices /\
  getSliceByName sliceService (task_slice t)
    = Some (concept_set_ids (task_config t)) /\
  MIN_EXAMPLES_LENGTH <= length (concept_set_ids (task_config t)) /\
  class_to_explain (task_config t) = selectedClass this /\
  grad_layer (task_config t) = selectedLayer this.
Proof.
  destruct (runTCAV_loop_cases sliceService slices this cands acc)
    as [->|(pre & x & rest & ids & -> & _ & Hids & Hlen & ->)];
    [discriminate|].
  intros [= _ <-]. simpl. split; [reflexivity|]. split; [|by auto].
  apply elem_of_app. right. apply elem_of_cons. by left.
Qed.

Lemma runTCAV_loop_suspended_rest sliceService slices this cands acc this1 t :
  runTCAV_loop sliceService this cands acc slices = (this1, Suspended t) ->
  exists pre, slices = pre ++ task_slice t :: task_rest t.
Proof.
  destruct (runTCAV_loop_cases sliceService slices this cands acc)
    as [->|(pre & x & rest & ids & -> & _ & _ & _ & ->)];
    [discriminate|].
  intros [= _ <-]. simpl. eauto.
Qed.

Lemma runTCAV_loop_suspended_within sliceService slices this cands acc this1 t :
  slices ⊆ cands ->
  runTCAV_loop sliceService this cands acc slices = (this1, Suspended t) ->
  task_slicesToRun t = cands /\
  task_slice t ∈ task_slicesToRun t /\
  task_rest t ⊆ task_slicesToRun t.
Proof.
  intros Hsub E.
  destruct (runTCAV_loop_suspended_config _ _ _ _ _ _ _ E) as (Hc & _).
  destruct (runTCAV_loop_suspended_rest _ _ _ _ _ _ _ E) as (pre & Hpre).
  rewrite Hc. split; [reflexivity|]. split.
  - apply Hsub. rewrite Hpre. apply elem_of_app. right.
    apply elem_of_cons. by left.
  - intros y Hy. apply Hsub. rewrite Hpre. apply elem_of_app. right.
    apply elem_of_cons. by right.
Qed.

(** X1: whenever a run waits on a request, be it right after the click or
    after an earlier result of a run whose names still to visit are among
    its candidates, the configuration it sent holds the member list the
    subset resolved to at that moment, of at least two members, and the
    class and the layer selected at that moment; the subset asked for and
    the names still to visit are among the candidates of the run, which are
    the ones computed at the click and are carried unchanged through a
    resumption. *)
Theorem request_configuration (sliceService : SliceService)
  (this : TCAVModule) (t0 t : RunTask) (result : option (list TCAVResult)) :
  task_rest t0 ⊆ task_slicesToRun t0 ->
  (runTCAV sliceService this).2 = Suspended t \/
  (runTCAV_resume sliceService this t0 result).2 = Suspended t ->
  getSliceByName sliceService (task_slice t)
    = Some (concept_set_ids (task_config t)) /\
  MIN_EXAMPLES_LENGTH <= length (concept_set_ids (task_config t)) /\
  class_to_explain (task_config t) = selectedClass this /\
  grad_layer (task_config t) = selectedLayer this /\
  task_slice t ∈ task_slicesToRun t /\
  task_rest t ⊆ task_slicesToRun t /\
  ((runTCAV sliceService this).2 = Suspended t ->
   task_slicesToRun t = candidateSlices sliceService this) /\
  ((runTCAV_resume sliceService this t0 result).2 = Suspended t ->
   task_slicesToRun t = task_slicesToRun t0).
Proof.
  intros Hwf.
  assert (Hstart : (runTCAV sliceService this).2 = Suspended t ->
    (task_slicesToRun t = candidateSlices sliceService this /\
     task_slice t ∈ task_slicesToRun t /\
     task_rest t ⊆ task_slicesToRun t) /\
    getSliceByName sliceService (task_slice t)
      = Some (concept_set_ids (task_config t)) /\
    MIN_EXAMPLES_LENGTH <= length (concept_set_ids (task_config t)) /\
    class_to_explain (task_config t) = selectedClass this /\
    grad_layer (task_config t) = selectedLayer this).
  { unfold runTCAV.
    destruct (runTCAV_loop _ _ _ _ _) as [this1 status] eqn:E. simpl.
    intros ->. split.
    - exact (runTCAV_loop_suspended_within _ _ _ _ _ _ _ (reflexivity _) E).
    - destruct (runTCAV_loop_suspended_config _ _ _ _ _ _ _ E)
        as (_ & _ & H). exact H. }
  assert (Hresume : (runTCAV_resume sliceService this t0 result).2
                    = Suspended t ->
    (task_slicesToRun t = task_slicesToRun t0 /\
     task_slice t ∈ task_slicesToRun t /\
     task_rest t ⊆ task_slicesToRun t) /\
    getSliceByName sliceService (task_slice t)
      = Some (concept_set_ids (task_config t)) /\
    MIN_EXAMPLES_LENGTH <= length (concept_set_ids (task_config t)) /\
    class_to_explain (task_config t) = selectedClass this /\
    grad_layer (task_config t) = selectedLayer this).
  { destruct result as [[|r0 tl]|]; simpl; try discriminate.
    destruct (runTCAV_loop _ _ _ _ _) as [this1 status] eqn:E. simpl.
    intros ->. split.
    - exact (runTCAV_loop_suspended_within _ _ _ _ _ _ _ Hwf E).
    - destruct (runTCAV_loop_suspended_config _ _ _ _ _ _ _ E)
        as (_ & _ & H). exact H. }
  intros H.
  assert (Hall : (task_slice t ∈ task_slicesToRun t /\
                  task_rest t ⊆ task_slicesToRun t) /\
    getSliceByName sliceService (task_slice t)
      = Some (concept_set_ids (task_config t)) /\
    MIN_EXAMPLES_LENGTH <= length (concept_set_ids (task_config t)) /\
    class_to_explain (task_config t) = selectedClass this /\
    grad_layer (task_config t) = selectedLayer this).
  { destruct H as [H|H]; [apply Hstart in H | apply Hresume in H];
      destruct H as ((_ & ? & ?) & ?); auto. }
  destruct Hall as ((? & ?) & ? & ? & ? & ?).
  repeat (split; [assumption|]). split.
  - intros H'. apply Hstart in H' as ((? & _) & _). assumption.
  - intros H'. apply Hresume in H' as ((? & _) & _). assumption.
Qed.

Lemma request_configuration_witness :
  task_rest sampleTask ⊆ task_slicesToRun sampleTask /\
  (runTCAV sampleService (set_selectedClass "cat" initial)).2
    = Suspended
        {| task_slicesToRun := ["gone"; "pair"]; task_scores := ∅;
           task_slice := "pair"; task_rest := [];
           task_config := {| concept_set_ids := ["id1"; "id2"];
                             class_to_explain := "cat";
                             grad_layer := "" |} |} /\
  getSliceByName sampleService "pair" = Some ["id1"; "id2"].
Proof.
  assert (Hwf : task_rest sampleTask ⊆ task_slicesToRun sampleTask)
    by (intros x Hx; inversion Hx).
  assert (H : (runTCAV sampleService (set_selectedClass "cat" initial)).2
    = Suspended
        {| task_slicesToRun := ["gone"; "pair"]; task_scores := ∅;
           task_slice := "pair"; task_rest := [];
           task_config := {| concept_set_ids := ["id1"; "id2"];
                             class_to_explain := "cat";
                             grad_layer := "" |} |}) by reflexivity.
  split; [exact Hwf|]. split; [exact H|].
  exact (proj1 (request_configuration sampleService
                  (set_selectedClass "cat" initial) sampleTask _ None
                  Hwf (or_introl H))).
Defined.

(** X2: when a request of a run is answered by an empty array, the read of
    its first entry faults: the run rejects with a TypeError whatever would
    have followed, the score map is the one from before the run, and the
    loading flag is left true. *)
Theorem empty_result_rejects (sliceService : SliceService) (this : TCAVModule)
  (pre post : list (option (list TCAVResult)))
  (this1 : TCAVModule) (t : RunTask) :
  run sliceService this pre = (this1, Suspended t) ->
  run sliceService this (pre ++ Some [] :: post)
    = (set_isLoading true this, Rejected TypeError).
Proof.
  intros Hpre. rewrite run_app, Hpre. simpl.
  rewrite drive_terminal by discriminate.
  apply run_suspended in Hpre as ->. reflexivity.
Qed.

Lemma empty_result_rejects_witness :
  run sampleService shownBefore [] = (set_isLoading true shownBefore,
                                      Suspended
         {| task_slicesToRun := ["gone"; "pair"]; task_scores := ∅;
            task_slice := "pair"; task_rest := [];
            task_config := {| concept_set_ids := ["id1"; "id2"];
                              class_to_explain := ""; grad_layer := "" |} |}) /\
  run sampleService shownBefore ([] ++ Some [] :: [Some [highSignificance]])
    = (set_isLoading true shownBefore, Rejected TypeError).
Proof.
  assert (H : run sampleService shownBefore []
    = (set_isLoading true shownBefore, Suspended
         {| task_slicesToRun := ["gone"; "pair"]; task_scores := ∅;
            task_slice := "pair"; task_rest := [];
            task_config := {| concept_set_ids := ["id1"; "id2"];
                              class_to_explain := ""; grad_layer := "" |} |}))
    by reflexivity.
  split; [exact H|].
  exact (empty_result_rejects sampleService shownBefore []
           [Some [highSignificance]] _ _ H).
Defined.

(** ** When a run completes, and with what *)

Lemma requests_skip sliceService slice rest :
  usableb sliceService slice = false ->
  requests sliceService (slice :: rest) = requests sliceService rest.
Proof. intros H. unfold requests. simpl. by rewrite H. Qed.

Lemma requests_request sliceService slice rest :
  usableb sliceService slice = true ->
  requests sliceService (slice :: rest)
    = slice :: requests sliceService rest.
Proof. intros H. unfold requests. simpl. by rewrite H. Qed.

Lemma completed_iff_answered sliceService slices this cands acc responses :
  (drive sliceService
     (runTCAV_loop sliceService this cands acc slices).1
     (runTCAV_loop sliceService this cands acc slices).2 responses).2
    = Completed <->
  length (requests sliceService slices) <= length responses /\
  Forall (fun r => answered r = true)
    (take (length (requests sliceService slices)) responses).
Proof.
  revert acc responses.
  induction slices as [|s rest IH]; intros acc responses.
  - simpl. rewrite drive_terminal by discriminate. simpl.
    split; [intros _; split; [lia | constructor] | reflexivity].
  - destruct (usableb sliceService s) eqn:Hs.
    + destruct (runTCAV_loop_request sliceService this cands acc s rest Hs)
        as (cfg & _ & _ & _ & _ & ->).
      rewrite (requests_request _ _ _ Hs). simpl.
      destruct responses as [|r responses]; simpl.
      * split; [discriminate | intros [H _]; lia].
      * destruct r as [[|r0 tl]|]; simpl.
        -- rewrite drive_terminal by discriminate. simpl.
           split; [discriminate|]. intros [_ H]. inversion H; discriminate.
        -- destruct (runTCAV_loop sliceService this cands _ rest)
             as [this1 status1] eqn:El.
           pose proof (IH (recordResult
                          {| task_slicesToRun := cands; task_scores := acc;
                             task_slice := s; task_rest := rest;
                             task_config := cfg |} r0) responses) as IH'.
           rewrite El in IH'. simpl in IH'. rewrite IH'.
           rewrite Forall_cons. simpl. split.
           ++ intros [Hl Hf]. split; [lia | auto].
           ++ intros [Hl [_ Hf]]. split; [lia | auto].
        -- rewrite drive_terminal by discriminate. simpl.
           split; [discriminate|]. intros [_ H]. inversion H; discriminate.
    + rewrite (runTCAV_loop_skip _ _ _ _ _ _ Hs), (requests_skip _ _ _ Hs).
      apply IH.
Qed.

(** X3: a run that nothing interleaves with completes exactly when each of
    the requests it has to send (one per candidate that resolves to at least
    two members, in the order of the candidates) is answered, and answered by
    a result that is neither stale nor empty. *)
Theorem run_completes_iff (sliceService : SliceService) (this : TCAVModule)
  (responses : list (option (list TCAVResult))) :
  (run sliceService this responses).2 = Completed <->
  length (requests sliceService (candidateSlices sliceService this))
    <= length responses /\
  Forall (fun r => answered r = true)
    (take (length (requests sliceService (candidateSlices sliceService this)))
       responses).
Proof.
  unfold run, runTCAV.
  pose proof (completed_iff_answered sliceService
                (candidateSlices sliceService (set_isLoading true this))
                (set_isLoading true this)
                (candidateSlices sliceService (set_isLoading true this))
                ∅ responses) as H.
  destruct (runTCAV_loop _ _ _ _ _) as [this1 status1]. exact H.
Qed.

Lemma qualifies_with_nil sliceService responses k v :
  ~ qualifies_with sliceService [] responses k v.
Proof. intros (i & r0 & tl & H & _). by destruct i. Qed.

Lemma qualifies_with_skip sliceService slice rest responses k v :
  usableb sliceService slice = false ->
  qualifies_with sliceService (slice :: rest) responses k v <->
  qualifies_with sliceService rest responses k v.
Proof. intros H. unfold qualifies_with. by rewrite requests_skip. Qed.

Lemma qualifies_with_request sliceService slice rest r responses k v :
  usableb sliceService slice = true ->
  qualifies_with sliceService (slice :: rest) (r :: responses) k v <->
  (k = slice /\
   exists r0 tl, r = Some (r0 :: tl) /\ significant r0 /\
                 score (result r0) = v) \/
  qualifies_with sliceService rest responses k v.
Proof.
  intros H. unfold qualifies_with. rewrite requests_request by exact H. split.
  - intros (i & r0 & tl & Hk & Hr & Hs & Hv). destruct i as [|i]; simpl in *.
    + left. injection Hk as <-. injection Hr as ->. eauto 6.
    + right. eauto 8.
  - intros [(-> & r0 & tl & -> & Hs & Hv)|(i & r0 & tl & Hk & Hr & Hs)].
    + exists 0, r0, tl. auto.
    + exists (S i), r0, tl. auto.
Qed.

Lemma recordResult_lookup t r0 k v :
  task_scores t !! task_slice t = None ->
  recordResult t r0 !! k = Some v <->
  task_scores t !! k = Some v \/
  (k = task_slice t /\ significant r0 /\ score (result r0) = v).
Proof.
  intros Hfresh. unfold recordResult, significant.
  destruct (PrimFloat.ltb (p_val r0) 0.5).
  - rewrite lookup_insert. case_decide as Hk.
    + subst k. split.
      * intros [= <-]. auto.
      * intros [H|(_ & _ & <-)]; [congruence | reflexivity].
    + split; [auto|]. intros [H|(-> & _)]; [exact H | congruence].
  - split; [auto|]. intros [H|(_ & H & _)]; [exact H | discriminate].
Qed.

Lemma completed_lookup sliceService slices this cands acc responses this1 :
  NoDup slices ->
  (forall k, k ∈ slices -> acc !! k = None) ->
  drive sliceService
    (runTCAV_loop sliceService this cands acc slices).1
    (runTCAV_loop sliceService this cands acc slices).2 responses
    = (this1, Completed) ->
  forall k v,
    scores this1 !! k = Some v <->
    acc !! k = Some v \/ qualifies_with sliceService slices responses k v.
Proof.
  revert acc responses.
  induction slices as [|s rest IH]; intros acc responses Hnd Hfresh Hrun k v.
  - simpl in Hrun. rewrite drive_terminal in Hrun by discriminate.
    injection Hrun as <-. simpl. split; [auto|].
    intros [H|H]; [exact H | by apply qualifies_with_nil in H].
  - apply NoDup_cons in Hnd as [Hs_notin Hnd].
    assert (Hfresh_s : acc !! s = None)
      by (apply Hfresh, elem_of_cons; by left).
    destruct (usableb sliceService s) eqn:Hs.
    + destruct (runTCAV_loop_request sliceService this cands acc s rest Hs)
        as (cfg & _ & _ & _ & _ & Heq).
      rewrite Heq in Hrun. simpl in Hrun.
      destruct responses as [|r responses]; [discriminate|].
      rewrite (qualifies_with_request _ _ _ _ _ _ _ Hs).
      destruct r as [[|r0 tl]|]; simpl in Hrun;
        try (rewrite drive_terminal in Hrun by discriminate; discriminate).
      set (t := {| task_slicesToRun := cands; task_scores := acc;
                   task_slice := s; task_rest := rest;
                   task_config := cfg |}) in *.
      destruct (runTCAV_loop sliceService this cands (recordResult t r0) rest)
        as [this2 status2] eqn:El.
      pose proof (IH (recordResult t r0) responses Hnd) as IH'.
      rewrite El in IH'.
      assert (Hfresh' : forall k0, k0 ∈ rest -> recordResult t r0 !! k0 = None).
      { intros k0 Hk0. apply eq_None_not_Some. intros [v0 Hv0].
        apply (recordResult_lookup t r0 k0 v0 Hfresh_s) in Hv0
          as [Hv0|(-> & _)].
        - rewrite Hfresh in Hv0; [discriminate|]. apply elem_of_cons. by right.
        - by apply Hs_notin. }
      rewrite (IH' Hfresh' Hrun k v),
        (recordResult_lookup t r0 k v Hfresh_s). simpl. split.
      * intros [[H|(-> & Hsig & Hv)]|H]; [by left| |by right; right].
        right. left. split; [reflexivity|]. exists r0, tl. auto.
      * intros [H|[(-> & r1 & tl1 & [= <- <-] & Hsig & Hv)|H]]; auto.
    + rewrite (runTCAV_loop_skip _ _ _ _ _ _ Hs) in Hrun.
      rewrite (qualifies_with_skip _ _ _ _ _ _ Hs).
      apply IH; try assumption.
      intros k0 Hk0. apply Hfresh, elem_of_cons. by right.
Qed.

(** X4: when the candidate names are distinct, the score map left by a
    completed run holds [v] under [k] exactly when the request sent for [k]
    was answered by a result whose first entry has a p-value below 0.5 and
    the score [v]. *)
Theorem completed_scores (sliceService : SliceService) (this this1 : TCAVModule)
  (responses : list (option (list TCAVResult))) :
  NoDup (candidateSlices sliceService this) ->
  run sliceService this responses = (this1, Completed) ->
  forall k v,
    scores this1 !! k = Some v <->
    qualifies_with sliceService (candidateSlices sliceService this)
      responses k v.
Proof.
  unfold run, runTCAV. intros Hnd Hrun k v.
  destruct (runTCAV_loop sliceService (set_isLoading true this)
              (candidateSlices sliceService (set_isLoading true this)) ∅
              (candidateSlices sliceService (set_isLoading true this)))
    as [this2 status2] eqn:El.
  pose proof (completed_lookup sliceService
                (candidateSlices sliceService (set_isLoading true this))
                (set_isLoading true this)
                (candidateSlices sliceService (set_isLoading true this))
                ∅ responses this1 Hnd (fun k0 _ => lookup_empty k0)) as H.
  rewrite El in H. rewrite (H Hrun k v), lookup_empty.
  change (candidateSlices sliceService (set_isLoading true this))
    with (candidateSlices sliceService this).
  split; [intros [H'|H']; [discriminate | exact H'] | auto].
Qed.

Lemma completed_scores_witness :
  NoDup (candidateSlices serviceXY afterX) /\
  run serviceXY afterX [Some [lowSignificance]; Some [highSignificance]]
    = (afterY, Completed) /\
  (scores afterY !! "Y" = Some 0.7%float <->
   qualifies_with serviceXY (candidateSlices serviceXY afterX)
     [Some [lowSignificance]; Some [highSignificance]] "Y" 0.7%float).
Proof.
  assert (Hnd : NoDup (candidateSlices serviceXY afterX))
    by (apply NoDup_decide_list; vm_compute; reflexivity).
  assert (Hrun : run serviceXY afterX
                   [Some [lowSignificance]; Some [highSignificance]]
                 = (afterY, Completed)) by (vm_compute; reflexivity).
  split; [exact Hnd|]. split; [exact Hrun|].
  exact (completed_scores serviceXY afterX afterY _ Hnd Hrun "Y" 0.7%float).
Defined.

(** ** The button and the run *)

Lemma usableb_usable sliceService slice :
  usableb sliceService slice = true <-> usable sliceService slice.
Proof.
  unfold usableb, usable. split.
  - destruct (getSliceByName sliceService slice) as [ids|]; [|discriminate].
    intros H. apply Nat.leb_le in H. eauto.
  - intros (ids & -> & H). by apply Nat.leb_le.
Qed.

Lemma runTCAV_loop_sends sliceService slices this cands acc :
  Exists (fun s => usableb sliceService s = true) slices ->
  exists t,
    runTCAV_loop sliceService this cands acc slices = (this, Suspended t).
Proof.
  induction slices as [|s rest IH]; intros Hex; [inversion Hex|].
  destruct (usableb sliceService s) eqn:Hs.
  - destruct (runTCAV_loop_request sliceService this cands acc s rest Hs)
      as (cfg & _ & _ & _ & _ & ->). eauto.
  - rewrite runTCAV_loop_skip by exact Hs. apply IH.
    inversion Hex; subst; [congruence | assumption].
Qed.

(** X5: a click on an enabled button always sends a request: if
    [shouldDisable] answers false, [runTCAV] on the same state is suspended
    on a request, with the loading flag set and the score map untouched.
    Conversely a run that ends at once without any request only happens
    where the button is disabled. *)
Theorem enabled_click_sends_request (sliceService : SliceService)
  (this : TCAVModule) :
  (shouldDisable sliceService this = false ->
   exists t,
     runTCAV sliceService this = (set_isLoading true this, Suspended t)) /\
  ((runTCAV sliceService this).2 = Completed ->
   shouldDisable sliceService this = true).
Proof.
  assert (Hsend : shouldDisable sliceService this = false ->
    exists t,
      runTCAV sliceService this = (set_isLoading true this, Suspended t)).
  { intros H. apply shouldDisable_loop_enabled in H
      as (pre & s & post & Heq & _ & Hs).
    unfold runTCAV. apply runTCAV_loop_sends.
    change (candidateSlices sliceService (set_isLoading true this))
      with (candidateSlices sliceService this).
    rewrite Heq. apply Exists_app. right. constructor.
    by apply usableb_usable. }
  split; [exact Hsend|].
  intros Hc. apply not_false_iff_true. intros Hd.
  destruct (Hsend Hd) as [t Ht]. rewrite Ht in Hc. discriminate.
Qed.

Lemma enabled_click_sends_request_witness :
  shouldDisable sampleService (set_selectedSlice "pair" initial) = false /\
  exists t,
    runTCAV sampleService (set_selectedSlice "pair" initial)
      = (set_isLoading true (set_selectedSlice "pair" initial), Suspended t).
Proof.
  assert (H : shouldDisable sampleService (set_selectedSlice "pair" initial)
              = false) by reflexivity.
  split; [exact H|].
  exact (proj1 (enabled_click_sends_request sampleService
                  (set_selectedSlice "pair" initial)) H).
Defined.

(** X6: with a single subset selected (anything but "all"), the button is
    disabled exactly when that subset does not resolve to at least two
    members, and exactly when a run would end at once with an empty score
    map and no request. *)
Theorem single_selection_enablement (sliceService : SliceService)
  (this : TCAVModule) :
  selectedSlice this <> ALL ->
  (shouldDisable sliceService this = true <->
   ~ usable sliceService (selectedSlice this)) /\
  (shouldDisable sliceService this = true <->
   runTCAV sliceService this
     = (set_scores ∅ (set_isLoading false this), Completed)).
Proof.
  intros Hne.
  assert (Hc : candidateSlices sliceService this = [selectedSlice this]).
  { unfold candidateSlices.
    destruct (String.eqb_spec (selectedSlice this) ALL);
      [contradiction | reflexivity]. }
  assert (Hd : shouldDisable sliceService this
               = negb (usableb sliceService (selectedSlice this))).
  { unfold shouldDisable. rewrite Hc. unfold usableb.
    cbn [shouldDisable_loop].
    destruct (getSliceByName sliceService (selectedSlice this)) as [ids|];
      [|reflexivity].
    by destruct (Nat.leb MIN_EXAMPLES_LENGTH (length ids)). }
  split.
  - rewrite Hd, <- usableb_usable.
    destruct (usableb sliceService (selectedSlice this)); simpl;
      split; congruence.
  - rewrite Hd. unfold runTCAV.
    change (candidateSlices sliceService (set_isLoading true this))
      with (candidateSlices sliceService this).
    rewrite Hc.
    destruct (usableb sliceService (selectedSlice this)) eqn:Hs; simpl negb.
    + destruct (runTCAV_loop_request sliceService (set_isLoading true this)
                  [selectedSlice this] ∅ (selectedSlice this) [] Hs)
        as (cfg & _ & _ & _ & _ & ->).
      split; discriminate.
    + rewrite runTCAV_loop_skip by exact Hs. simpl. split; reflexivity.
Qed.

Lemma single_selection_enablement_witness :
  selectedSlice (set_selectedSlice "gone" initial) <> ALL /\
  shouldDisable sampleService (set_selectedSlice "gone" initial) = true /\
  runTCAV sampleService (set_selectedSlice "gone" initial)
    = (set_scores ∅ (set_isLoading false (set_selectedSlice "gone" initial)),
       Completed).
Proof.
  assert (Hne : selectedSlice (set_selectedSlice "gone" initial) <> ALL)
    by discriminate.
  assert (Hd : shouldDisable sampleService (set_selectedSlice "gone" initial)
               = true) by reflexivity.
  split; [exact Hne|]. split; [exact Hd|].
  exact (proj1 (proj2 (single_selection_enablement sampleService
                         (set_selectedSlice "gone" initial) Hne)) Hd).
Defined.

(** ** What a run depends on *)

Lemma set_scores_same_selection acc b this this2 :
  same_selection this this2 ->
  set_scores acc (set_isLoading b this) = set_scores acc (set_isLoading b this2).
Proof.
  intros (Hs & Hl & Hc). unfold set_scores, set_isLoading. simpl.
  by rewrite Hs, Hl, Hc.
Qed.

Lemma runTCAV_loop_agree sliceService slices this this2 cands acc :
  same_selection this this2 ->
  agree (runTCAV_loop sliceService this cands acc slices)
        (runTCAV_loop sliceService this2 cands acc slices).
Proof.
  intros Hsel. induction slices as [|s rest IH].
  - simpl. split; [reflexivity|]. split.
    + destruct Hsel as (? & ? & ?). by repeat split.
    + intros _. simpl. by apply set_scores_same_selection.
  - destruct (usableb sliceService s) eqn:Hs.
    + destruct (runTCAV_loop_request sliceService this cands acc s rest Hs)
        as (cfg & Hids & _ & Hc & Hl & ->).
      destruct (runTCAV_loop_request sliceService this2 cands acc s rest Hs)
        as (cfg2 & Hids2 & _ & Hc2 & Hl2 & ->).
      assert (cfg = cfg2) as <-.
      { destruct Hsel as (_ & Hsl & Hsc). destruct cfg, cfg2. simpl in *.
        congruence. }
      split; [reflexivity|]. split; [exact Hsel | discriminate].
    + rewrite !runTCAV_loop_skip by exact Hs. exact IH.
Qed.

Lemma runTCAV_resume_agree sliceService this this2 t result :
  same_selection this this2 ->
  agree (runTCAV_resume sliceService this t result)
        (runTCAV_resume sliceService this2 t result).
Proof.
  intros Hsel. destruct result as [[|r0 tl]|]; simpl.
  - split; [reflexivity|]. split; [exact Hsel | discriminate].
  - by apply runTCAV_loop_agree.
  - split; [reflexivity|]. split; [|discriminate].
    destruct Hsel as (? & ? & ?). by repeat split.
Qed.

Lemma drive_agree sliceService responses p q :
  agree p q ->
  agree (drive sliceService p.1 p.2 responses)
        (drive sliceService q.1 q.2 responses).
Proof.
  revert p q. induction responses as [|r rest IH]; intros [th st] [th2 st2] H.
  - simpl in *. by destruct st, st2.
  - destruct H as (Hst & Hsel & Hc). simpl in *. subst st2.
    destruct st as [t| | |e]; simpl.
    + pose proof (runTCAV_resume_agree sliceService th th2 t r Hsel) as Hr.
      destruct (runTCAV_resume sliceService th t r) as [a sa].
      destruct (runTCAV_resume sliceService th2 t r) as [b sb].
      exact (IH (a, sa) (b, sb) Hr).
    + split; [reflexivity|]. split; [exact Hsel | exact Hc].
    + split; [reflexivity|]. split; [exact Hsel | discriminate].
    + split; [reflexivity|]. split; [exact Hsel | discriminate].
Qed.

(** X7: the outcome of a run does not depend on the score map nor on the
    loading flag it finds: two controllers with the same three selections
    give the same status on the same answers, and when the run completes
    they end up equal, old scores and all. *)
Theorem run_forgets_previous_scores (sliceService : SliceService)
  (this this2 : TCAVModule) (responses : list (option (list TCAVResult))) :
  same_selection this this2 ->
  (run sliceService this responses).2 = (run sliceService this2 responses).2 /\
  ((run sliceService this responses).2 = Completed ->
   run sliceService this responses = run sliceService this2 responses).
Proof.
  intros Hsel. unfold run, runTCAV.
  assert (Hc : candidateSlices sliceService (set_isLoading true this)
               = candidateSlices sliceService (set_isLoading true this2)).
  { unfold candidateSlices. simpl. destruct Hsel as (-> & _). reflexivity. }
  rewrite <- Hc.
  assert (Hsel' : same_selection (set_isLoading true this)
                    (set_isLoading true this2)) by exact Hsel.
  pose proof (runTCAV_loop_agree sliceService
                (candidateSlices sliceService (set_isLoading true this))
                _ _ (candidateSlices sliceService (set_isLoading true this))
                ∅ Hsel') as Hl.
  destruct (runTCAV_loop sliceService (set_isLoading true this) _ _ _)
    as [a sa].
  destruct (runTCAV_loop sliceService (set_isLoading true this2) _ _ _)
    as [b sb].
  pose proof (drive_agree sliceService responses (a, sa) (b, sb) Hl)
    as (Hst & _ & Heq). simpl in *.
  split; [exact Hst|]. intros Hcomp.
  destruct (drive sliceService a sa responses) as [x sx].
  destruct (drive sliceService b sb responses) as [y sy]. simpl in *.
  by rewrite (Heq Hcomp), Hst.
Qed.

Lemma run_forgets_previous_scores_witness :
  same_selection afterX initial /\
  run serviceXY afterX [Some [lowSignificance]; Some [highSignificance]]
    = run serviceXY initial [Some [lowSignificance]; Some [highSignificance]].
Proof.
  assert (Hsel : same_selection afterX initial) by (by repeat split).
  split; [exact Hsel|].
  apply (proj2 (run_forgets_previous_scores serviceXY afterX initial
                  [Some [lowSignificance]; Some [highSignificance]] Hsel)).
  vm_compute. reflexivity.
Defined.

Lemma runTCAV_loop_slice_change sliceService slices this cands acc value :
  runTCAV_loop sliceService (handleSliceChange value this) cands acc slices
    = (handleSliceChange value
         (runTCAV_loop sliceService this cands acc slices).1,
       (runTCAV_loop sliceService this cands acc slices).2).
Proof.
  induction slices as [|s rest IH]; cbn [runTCAV_loop]; [reflexivity|].
  destruct (getSliceByName sliceService s) as [ids|]; [|exact IH].
  destruct (Nat.ltb (length ids) MIN_EXAMPLES_LENGTH); [exact IH|reflexivity].
Qed.

(** X8: the candidate list of a run is fixed when the run starts: choosing
    another subset while the run waits on a request changes nothing in what
    the run does next; resuming after the change gives the same status, the
    same next request and the same controller as changing after the
    resumption. *)
Theorem slice_change_during_run (sliceService : SliceService)
  (this : TCAVModule) (t : RunTask) (result : option (list TCAVResult))
  (value : string) :
  runTCAV_resume sliceService (handleSliceChange value this) t result
    = (handleSliceChange value
         (runTCAV_resume sliceService this t result).1,
       (runTCAV_resume sliceService this t result).2).
Proof.
  destruct result as [[|r0 tl]|]; simpl; try reflexivity.
  apply runTCAV_loop_slice_change.
Qed.

(** ** The score map across events *)

Lemma runTCAV_cases sliceService this :
  runTCAV sliceService this
    = (set_scores ∅ (set_isLoading false this), Completed) \/
  exists t, runTCAV sliceService this = (set_isLoading true this, Suspended t).
Proof.
  unfold runTCAV.
  destruct (runTCAV_loop_cases sliceService
              (candidateSlices sliceService (set_isLoading true this))
              (set_isLoading true this)
              (candidateSlices sliceService (set_isLoading true this)) ∅)
    as [H|(? & ? & ? & ? & _ & _ & _ & _ & H)]; rewrite H; eauto.
Qed.

Lemma runTCAV_resume_cases sliceService this t r0 tl :
  runTCAV_resume sliceService this t (Some (r0 :: tl))
    = (set_scores (recordResult t r0) (set_isLoading false this), Completed) \/
  exists t1,
    runTCAV_resume sliceService this t (Some (r0 :: tl))
      = (this, Suspended t1).
Proof.
  simpl.
  destruct (runTCAV_loop_cases sliceService (task_rest t) this
              (task_slicesToRun t) (recordResult t r0))
    as [H|(? & ? & ? & ? & _ & _ & _ & _ & H)]; rewrite H; eauto.
Qed.

(** X9: in the life of an element, with runs interleaved at will, an event
    either leaves the score map as it is, or it is the click of a run that
    ends at once and leaves the empty map, or it is the last result of a
    suspended run, and then the map becomes the working map of that run with
    this result recorded: the map never shows an intermediate state. *)
Theorem scores_change_only_on_completion (sys : System) (ev : Event) :
  scores (element (step sys ev)) = scores (element sys) \/
  (exists sliceService,
     ev = Click sliceService /\
     (runTCAV sliceService (element sys)).2 = Completed /\
     scores (element (step sys ev)) = ∅) \/
  (exists i sliceService r0 tl t log,
     ev = Settle i sliceService (Some (r0 :: tl)) /\
     pending sys !! i = Some (t, log) /\
     (runTCAV_resume sliceService (element sys) t (Some (r0 :: tl))).2
       = Completed /\
     scores (element (step sys ev)) = recordResult t r0 /\
     pending (step sys ev) = delete i (pending sys)).
Proof.
  destruct ev as [svc ms|v|v|v|svc|i svc r]; cbn [step]; try (by left).
  - left. unfold performUpdate. destruct (hasUpdated sys); [reflexivity|].
    apply scores_firstUpdated.
  - unfold click.
    destruct (runTCAV_cases svc (element sys)) as [E|[t E]]; rewrite E.
    + right. left. exists svc. rewrite E. auto.
    + by left.
  - unfold settle. destruct (pending sys !! i) as [[t log]|] eqn:Ei;
      [|by left].
    destruct r as [[|r0 tl]|]; try (by left).
    destruct (runTCAV_resume_cases svc (element sys) t r0 tl) as [E|[t1 E]];
      rewrite E.
    + right. right. exists i, svc, r0, tl, t, log. rewrite E. auto 6.
    + by left.
Qed.

(** ** More on the first render *)

(** X10: [firstUpdated] is idempotent: run a second time on the state it
    left, with the same descriptor, it leaves that state and ends the same
    way (normally, or with the same fault). *)
Theorem firstUpdated_idempotent (modelSpec : ModelSpec) (this : TCAVModule) :
  firstUpdated modelSpec (firstUpdated modelSpec this).1
    = firstUpdated modelSpec this.
Proof.
  destruct this as [sc sl ly cl ld]. unfold firstUpdated. simpl.
  destruct (String.eqb_spec ly "") as [->|Hly];
    destruct (gradKeys modelSpec) as [|g gs]; simpl;
    destruct (String.eqb_spec cl "") as [->|Hcl];
    destruct (predClasses modelSpec) as [[[|c cs]|]|e]; simpl;
    repeat match goal with
      | |- context [String.eqb ?a ?b] =>
          destruct (String.eqb_spec a b); subst; simpl
      end;
    try reflexivity; try contradiction.
Qed.

(** X11: with no class selected, [firstUpdated] faults with a TypeError both
    when the getter of the predictable classes faults and when it yields no
    vocabulary; the class stays unselected, but the default layer has been
    set before the fault. *)
Theorem firstUpdated_fault (modelSpec : ModelSpec) (this : TCAVModule) :
  selectedClass this = "" ->
  predClasses modelSpec = Throw TypeError \/
  predClasses modelSpec = Normal None ->
  (firstUpdated modelSpec this).2 = Throw TypeError /\
  selectedClass (firstUpdated modelSpec this).1 = "" /\
  (forall g rest,
     selectedLayer this = "" ->
     gradKeys modelSpec = g :: rest ->
     selectedLayer (firstUpdated modelSpec this).1 = g).
Proof.
  intros Hc Hp. split; [|split].
  - unfold firstUpdated.
    destruct (String.eqb (selectedLayer this) "");
      destruct (gradKeys modelSpec) as [|g l]; simpl; rewrite Hc; simpl;
      destruct Hp as [-> | ->]; reflexivity.
  - rewrite firstUpdated_class, Hc. simpl.
    by destruct Hp as [-> | ->].
  - intros g rest Hl Hg. by rewrite firstUpdated_layer, Hl, Hg.
Qed.

Lemma firstUpdated_fault_witness :
  selectedClass initial = "" /\
  predClasses gradientOnlyModel = Throw TypeError /\
  firstUpdated gradientOnlyModel initial
    = (set_selectedLayer "L1" initial, Throw TypeError) /\
  predClasses noVocabModel = Normal None /\
  (firstUpdated noVocabModel initial).2 = Throw TypeError.
Proof.
  split; [reflexivity|]. split; [reflexivity|]. split; [reflexivity|].
  split; [reflexivity|].
  exact (proj1 (firstUpdated_fault noVocabModel initial eq_refl
                  (or_intror eq_refl))).
Defined.

(** X12: [firstUpdated] writes the selected layer and the selected class
    only: the selected subset, the score map and the loading flag are the
    same after it, whether it ends normally or with a fault. *)
Theorem firstUpdated_frame (modelSpec : ModelSpec) (this : TCAVModule) :
  selectedSlice (firstUpdated modelSpec this).1 = selectedSlice this /\
  scores (firstUpdated modelSpec this).1 = scores this /\
  isLoading (firstUpdated modelSpec this).1 = isLoading this.
Proof.
  unfold firstUpdated.
  destruct (String.eqb (selectedLayer this) "");
    destruct (gradKeys modelSpec) as [|g l];
    destruct (String.eqb (selectedClass _) "");
    destruct (predClasses modelSpec) as [[[|c l2]|]|]; by repeat split.
Qed.

(** ** The selectors *)

Lemma markedValues_renderSelector fieldName handleChange selected items :
  markedValues (renderSelector fieldName handleChange selected items)
    = List.filter (fun val => String.eqb val selected) items.
Proof.
  unfold markedValues, renderSelector. simpl.
  induction items as [|x items IH]; simpl; [reflexivity|].
  destruct (String.eqb x selected); simpl; by rewrite IH.
Qed.

Lemma optionValues_renderSelector fieldName handleChange selected items :
  map option_value
    (select_options (renderSelector fieldName handleChange selected items))
    = ALL :: items.
Proof.
  unfold renderSelector. simpl. f_equal.
  induction items as [|x items IH]; simpl; [reflexivity|]. by rewrite IH.
Qed.

Lemma filter_eqb_absent (value : string) (items : list string) :
  value ∉ items ->
  List.filter (fun val => String.eqb val value) items = [].
Proof.
  induction items as [|x items IH]; simpl; [reflexivity|].
  rewrite not_elem_of_cons. intros [Hne Hnin].
  destruct (String.eqb_spec x value); [congruence | auto].
Qed.

Lemma filter_eqb_once (value : string) (items : list string) :
  NoDup items -> value ∈ items ->
  List.filter (fun val => String.eqb val value) items = [value].
Proof.
  induction items as [|x items IH]; simpl; intros Hnd Hin; [inversion Hin|].
  apply NoDup_cons in Hnd as [Hx Hnd].
  destruct (String.eqb_spec x value) as [->|Hne].
  - by rewrite filter_eqb_absent.
  - apply elem_of_cons in Hin as [Heq|Hin]; [congruence | auto].
Qed.

(** X13: choosing a value in the subset dropdown and rendering again: the
    dropdown again offers "all" followed by the names of the service; its
    leading "all" option never carries the [selected] mark; the options
    marked as selected are exactly the named options carrying the chosen
    value: one option when the names are distinct and the value is among
    them, none when the value is not among the names (so none after choosing
    the leading "all" option, unless a subset is itself named "all"); and the
    two other dropdowns are rendered as before. *)
Theorem slice_selector_roundtrip (sliceService : SliceService)
  (modelSpec : ModelSpec) (this : TCAVModule) (value : string)
  (slice layer class : SelectElement) :
  renderSelectors sliceService modelSpec this = Normal (slice, layer, class) ->
  exists slice2,
    renderSelectors sliceService modelSpec
      (select_handleChange slice value this)
      = Normal (slice2, layer, class) /\
    map option_value (select_options slice2)
      = ALL :: sliceNames sliceService /\
    head (select_options slice2)
      = Some {| option_value := ALL; option_selected := false |} /\
    markedValues slice2
      = List.filter (fun val => String.eqb val value)
          (sliceNames sliceService) /\
    (NoDup (sliceNames sliceService) ->
     value ∈ sliceNames sliceService ->
     markedValues slice2 = [value]) /\
    (value ∉ sliceNames sliceService -> markedValues slice2 = []).
Proof.
  unfold renderSelectors.
  destruct (predClasses modelSpec) as [[classes|]|e]; try discriminate.
  intros [= <- <- <-]. simpl.
  eexists. split; [reflexivity|].
  rewrite optionValues_renderSelector, markedValues_renderSelector.
  split; [reflexivity|]. split; [reflexivity|]. split; [reflexivity|]. split.
  - apply filter_eqb_once.
  - apply filter_eqb_absent.
Qed.

Lemma slice_selector_roundtrip_witness :
  exists slice layer class slice2,
    renderSelectors sampleService sampleModel initial
      = Normal (slice, layer, class) /\
    renderSelectors sampleService sampleModel
      (select_handleChange slice "pair" initial)
      = Normal (slice2, layer, class) /\
    markedValues slice = [] /\
    markedValues slice2 = ["pair"].
Proof.
  destruct (slice_selector_roundtrip sampleService sampleModel initial "pair"
              _ _ _ eq_refl) as (slice2 & Hr & _ & _ & Hm & _).
  eexists _, _, _, slice2. split; [reflexivity|]. split; [exact Hr|].
  split; [reflexivity|]. rewrite Hm. reflexivity.
Defined.

(** ** The visibility test and the getters *)

Lemma findSpecKeys_firstOfKind spec kindName field rest :
  findSpecKeys spec kindName = field :: rest ->
  exists ty, firstOfKind spec kindName = Some (field, ty).
Proof.
  unfold firstOfKind. induction spec as [|[k t] spec IH]; simpl;
    [discriminate|].
  destruct (String.eqb (kind t) kindName); [|exact IH].
  intros [= -> _]. eauto.
Qed.

Lemma doesOutputSpecContain_single name modelSpec kindName :
  doesOutputSpecContain [(name, modelSpec)] kindName = true ->
  exists field rest,
    findSpecKeys (output modelSpec) kindName = field :: rest.
Proof.
  unfold doesOutputSpecContain. simpl.
  destruct (findSpecKeys (output modelSpec) kindName) as [|f l];
    [discriminate | eauto].
Qed.

(** X14: for a single model that passes the visibility test and whose field
    names are distinct, neither getter comes up empty-handed: there is a
    first "MulticlassPreds" field and [predClasses] yields its vocabulary
    without a fault, there is a gradient layer, and the first render of a
    fresh element selects the first one. *)
Theorem visible_model_getters (name : string) (modelSpec : ModelSpec)
  (datasetSpec : Spec) :
  shouldDisplayModule [(name, modelSpec)] datasetSpec = true ->
  NoDup (output modelSpec).*1 ->
  (exists field ty,
     firstOfKind (output modelSpec) "MulticlassPreds" = Some (field, ty) /\
     predClasses modelSpec = Normal (vocab ty)) /\
  (exists g rest,
     gradKeys modelSpec = g :: rest /\
     selectedLayer (firstUpdated modelSpec initial).1 = g).
Proof.
  unfold shouldDisplayModule. intros Hvis Hnd.
  destruct (doesOutputSpecContain [(name, modelSpec)] "Gradients") eqn:Hg;
    [|discriminate].
  destruct (doesOutputSpecContain [(name, modelSpec)] "Embeddings");
    [|discriminate].
  destruct (doesOutputSpecContain [(name, modelSpec)] "MulticlassPreds") eqn:Hp;
    [|discriminate].
  split.
  - apply doesOutputSpecContain_single in Hp as (field & rest & Hk).
    destruct (findSpecKeys_firstOfKind _ _ _ _ Hk) as (ty & Hfirst).
    exists field, ty. split; [exact Hfirst|].
    destruct (firstOfKind_Some _ _ _ _ Hfirst) as (pre & post & Hout & Hpre & Hty).
    unfold predClasses.
    rewrite (findSpecKeys_first _ _ _ _ _ _ Hout Hpre Hty). simpl.
    by rewrite (getField_unique _ _ _ _ _ Hout Hnd).
  - apply doesOutputSpecContain_single in Hg as (g & rest & Hk).
    exists g, rest. split; [exact Hk|].
    rewrite firstUpdated_layer. unfold gradKeys. by rewrite Hk.
Qed.

Lemma visible_model_getters_witness :
  shouldDisplayModule [("m", sampleModel)] [] = true /\
  NoDup (output sampleModel).*1 /\
  exists field ty,
    firstOfKind (output sampleModel) "MulticlassPreds" = Some (field, ty) /\
    predClasses sampleModel = Normal (vocab ty).
Proof.
  assert (Hv : shouldDisplayModule [("m", sampleModel)] [] = true)
    by reflexivity.
  assert (Hnd : NoDup (output sampleModel).*1)
    by (apply NoDup_decide_list; vm_compute; reflexivity).
  split; [exact Hv|]. split; [exact Hnd|].
  exact (proj1 (visible_model_getters "m" sampleModel [] Hv Hnd)).
Defined.
